(** * HMM topology selection and word recognition

    A shallow embedding of [my_model_selectors.py] (the [ModelSelector]
    family: constant, BIC, DIC and cross-validated selection of the number
    of hidden states of a Gaussian HMM) and of [my_recognizer.py]
    ([recognize]).

    Python floats are IEEE binary64 numbers: they are Rocq's primitive
    floats, so [float('inf')], [<], [*], [+] and [-] are the kernel's
    operations and a NaN or an infinite score behaves as it does in Python.
    A Python exception is the [Exn] outcome of a computation, a bare
    [except:] is [try_except].  The computations also log every call of
    [GaussianHMM(...).fit], so that "a fit was attempted" is a statement
    about the log. *)

From Stdlib Require Import String ZArith List Floats Bool Lia.
Import ListNotations.

Set Implicit Arguments.

(** ** Outcomes and the computation monad *)

(** The outcome of a Python expression: a value, or a raised exception. *)
Inductive res (A : Type) : Type :=
| Ret (a : A)
| Exn.
Arguments Exn {A}.

(** Observation data: a matrix is a list of rows of features, a sequence is
    the matrix of one recording. *)
Definition Matrix : Type := list (list float).
Definition Sequence : Type := list (list float).

(** One call [GaussianHMM(n_components, random_state, n_iter=1000).fit(X, lengths)]. *)
Record FitCall : Type := mkFitCall {
  fc_X : Matrix;
  fc_lengths : list Z;
  fc_n_components : Z;
  fc_random_state : Z
}.

(** A computation: the fits it attempted, in order, and its outcome. *)
Definition M (A : Type) : Type := (list FitCall * res A)%type.

Definition log {A} (c : M A) : list FitCall := fst c.
Definition result {A} (c : M A) : res A := snd c.

Definition ret {A} (a : A) : M A := ([], Ret a).
Definition lift {A} (r : res A) : M A := ([], r).

Definition bind {A B} (c : M A) (k : A -> M B) : M B :=
  match c with
  | (l, Ret a) => (l ++ log (k a), result (k a))
  | (l, Exn) => (l, Exn)
  end.

(** [try: body except: handler] with a bare [except]. *)
Definition try_except {A} (body handler : M A) : M A :=
  match body with
  | (l, Ret a) => (l, Ret a)
  | (l, Exn) => (l ++ log handler, result handler)
  end.

Declare Scope pyM_scope.
Delimit Scope pyM_scope with pyM.
Notation "x <- c ;; k" := (bind c (fun x => k))
  (at level 61, c at next level, right associativity) : pyM_scope.
Notation "' pat <- c ;; k" := (bind c (fun x => match x with pat => k end))
  (at level 61, pat pattern, c at next level, right associativity) : pyM_scope.
Open Scope pyM_scope.

(** [for a in l: s = body(a, s)] over a loop state [s]. *)
Fixpoint for_each {A S : Type} (l : list A) (body : A -> S -> M S) (s : S) : M S :=
  match l with
  | [] => ret s
  | a :: l' => s' <- body a s ;; for_each l' body s'
  end.

(** ** Python built-ins *)

(** [range(start, stop)]. *)
Definition range (start stop : Z) : list Z :=
  map (fun i => (start + Z.of_nat i)%Z) (seq 0 (Z.to_nat (stop - start))).

(** [len(l)]. *)
Definition len {A} (l : list A) : Z := Z.of_nat (List.length l).

(** The coercion of a Python int to a float, rounding to nearest even; an
    int too large for a float raises [OverflowError]. *)
Definition float_of_int (z : Z) : res float :=
  let f := SF2Prim (binary_normalize prec emax z 0 false) in
  if is_infinity f then Exn else Ret f.

(** [max(iterable, key=key)]: the first item whose key no later item
    exceeds; [ValueError] on an empty iterable. *)
Definition py_max {A} (key : A -> float) (l : list A) : res A :=
  match l with
  | [] => Exn
  | x :: l' =>
      Ret (fold_left (fun best y => if (key best <? key y)%float then y else best) l' x)
  end.

(** A [dict] with string keys, in insertion order. *)
Module Dict.
Definition t (V : Type) : Type := list (string * V).

Definition keys {V} (d : t V) : list string := map fst d.
Definition items {V} (d : t V) : list (string * V) := d.

Fixpoint get {V} (d : t V) (k : string) : option V :=
  match d with
  | [] => None
  | (k', v) :: d' => if String.eqb k' k then Some v else get d' k
  end.

(** [d[k] = v]: overwrite in place, or append a new key. *)
Fixpoint set {V} (d : t V) (k : string) (v : V) : t V :=
  match d with
  | [] => [(k, v)]
  | (k', v') :: d' =>
      if String.eqb k' k then (k', v) :: d' else (k', v') :: set d' k v
  end.

(** [d[k]], raising [KeyError] on a missing key. *)
Definition getitem {V} (d : t V) (k : string) : res V :=
  match get d k with
  | Some v => Ret v
  | None => Exn
  end.
End Dict.

(** ** External capabilities *)

(** What hmmlearn and numpy provide: fitting a Gaussian HMM (which may
    raise), scoring a fitted model (which may raise), [np.log] of a Python
    int and [np.average] of a list of floats.  [base_model] passes
    [covariance_type="diag"] and [verbose=False] explicitly; they are the
    defaults of [GaussianHMM], so its fits and the selectors' are the same
    call. *)
Class Backend : Type := {
  Model : Type;
  fit : Matrix -> list Z -> Z -> Z -> res Model;
  score : Model -> Matrix -> list Z -> res float;
  np_log : Z -> float;
  np_average : list float -> float
}.

(** [sklearn.model_selection.KFold(n_splits)] without shuffling: the
    constructor refuses [n_splits <= 1]. *)
Definition KFold (n_splits : Z) : res Z :=
  if (n_splits <=? 1)%Z then Exn else Ret n_splits.

(** The sizes of the folds: [n_samples // n_splits] each, the first
    [n_samples % n_splits] folds one more. *)
Definition fold_sizes (n_splits n_samples : nat) : list nat :=
  map (fun i => n_samples / n_splits + (if i <? n_samples mod n_splits then 1 else 0))
      (seq 0 n_splits).

(** The [(start, stop)] bounds of consecutive folds of the given sizes. *)
Fixpoint fold_bounds (sizes : list nat) (current : nat) : list (nat * nat) :=
  match sizes with
  | [] => []
  | fold_size :: sizes' =>
      (current, current + fold_size) :: fold_bounds sizes' (current + fold_size)
  end.

(** [KFold.split]: one [(train, test)] pair of index lists per fold, the
    test indices a consecutive block and the train indices the others;
    more folds than samples is refused. *)
Definition KFold_split (n_splits : Z) (n_samples : nat) : res (list (list nat * list nat)) :=
  if n_samples <? Z.to_nat n_splits then Exn
  else
    Ret (map (fun '(start, stop) =>
                (filter (fun i => negb ((start <=? i) && (i <? stop))) (seq 0 n_samples),
                 seq start (stop - start)))
             (fold_bounds (fold_sizes (Z.to_nat n_splits) n_samples) 0)).

(** Modelled from the spec: [asl_utils.combine_sequences] is not among the
    sources; it "concatenates the selected sequences' rows/lengths in index
    order" into a matrix and its list of lengths.  An index outside the
    corpus raises. *)
Fixpoint combine_sequences (split_index_list : list nat) (sequences : list Sequence)
  : res (Matrix * list Z) :=
  match split_index_list with
  | [] => Ret ([], [])
  | idx :: rest =>
      match nth_error sequences idx, combine_sequences rest sequences with
      | Some s, Ret (X, lengths) => Ret (s ++ X, len s :: lengths)
      | _, _ => Exn
      end
  end.

(** ** The selectors ([my_model_selectors.py]) *)

Section Program.
Context {B : Backend}.

(** [GaussianHMM(n_components, random_state, n_iter=1000).fit(X, lengths)]:
    the call is logged, and it returns the model or raises. *)
Definition GaussianHMM_fit (X : Matrix) (lengths : list Z) (n_components random_state : Z)
  : M Model :=
  ([mkFitCall X lengths n_components random_state], fit X lengths n_components random_state).

(** The attributes [ModelSelector.__init__] sets. *)
Record ModelSelector : Type := mkModelSelector {
  words : Dict.t (list Sequence);
  hwords : Dict.t (Matrix * list Z);
  sequences : list Sequence;
  X : Matrix;
  lengths : list Z;
  this_word : string;
  n_constant : Z;
  min_n_components : Z;
  max_n_components : Z;
  random_state : Z;
  verbose : bool
}.

(** [ModelSelector.__init__]: the two look-ups raise [KeyError] on an
    unknown word. *)
Definition ModelSelector_init (all_word_sequences : Dict.t (list Sequence))
    (all_word_Xlengths : Dict.t (Matrix * list Z)) (this_word : string)
    (n_constant min_n_components max_n_components random_state : Z) (verbose : bool)
  : res ModelSelector :=
  match Dict.getitem all_word_sequences this_word,
        Dict.getitem all_word_Xlengths this_word with
  | Ret seqs, Ret (X, lengths) =>
      Ret (mkModelSelector all_word_sequences all_word_Xlengths seqs X lengths this_word
             n_constant min_n_components max_n_components random_state verbose)
  | _, _ => Exn
  end.

(** [ModelSelector.base_model]: the fit, or [None] when it raises. *)
Definition base_model (self : ModelSelector) (num_states : Z) : M (option Model) :=
  try_except
    (hmm_model <- GaussianHMM_fit self.(X) self.(lengths) num_states self.(random_state) ;;
     ret (Some hmm_model))
    (ret None).

(** [SelectorConstant.select]. *)
Definition SelectorConstant_select (self : ModelSelector) : M (option Model) :=
  let best_num_components := self.(n_constant) in
  base_model self best_num_components.

(** The body of [SelectorBIC.select]'s [try] before the comparison: the
    fitted model and its BIC score. *)
Definition SelectorBIC_candidate (self : ModelSelector) (n_features n_components : Z)
  : M (float * Model) :=
  current_model <- GaussianHMM_fit self.(X) self.(lengths) n_components self.(random_state) ;;
  logL <- lift (score current_model self.(X) self.(lengths)) ;;
  let p := (n_components * n_components + 2 * n_features * n_components - 1)%Z in
  let N := len self.(X) in
  p_float <- lift (float_of_int p) ;;
  let current_score := ((-2) * logL + p_float * np_log N)%float in
  ret (current_score, current_model).

(** [SelectorBIC.select]. *)
Definition SelectorBIC_select (self : ModelSelector) : M (option Model) :=
  best_model <- base_model self self.(n_constant) ;;
  let best_score := infinity in
  n_features <- lift (match self.(X) with
                      | [] => Exn
                      | row :: _ => Ret (len row)
                      end) ;;
  '(best_score, best_model) <-
    for_each (range self.(min_n_components) (self.(max_n_components) + 1))
      (fun n_components '(best_score, best_model) =>
         try_except
           ('(current_score, current_model) <-
              SelectorBIC_candidate self n_features n_components ;;
            if (current_score <? best_score)%float
            then ret (current_score, Some current_model)
            else ret (best_score, best_model))
           (ret (best_score, best_model)))
      (best_score, best_model) ;;
  ret best_model.

(** The inner loop of [SelectorDIC.select]: the scores of the model on
    every other word, in the iteration order of [self.words]. *)
Definition SelectorDIC_others (self : ModelSelector) (current_model : Model)
  : M (list float) :=
  for_each (Dict.keys self.(words))
    (fun word sum_logL =>
       if String.eqb word self.(this_word) then ret sum_logL
       else
         '(word_n, word_len) <- lift (Dict.getitem self.(hwords) word) ;;
         l <- lift (score current_model word_n word_len) ;;
         ret (sum_logL ++ [l]))
    [].

(** The body of [SelectorDIC.select]'s [try] before the comparison. *)
Definition SelectorDIC_candidate (self : ModelSelector) (n_components : Z)
  : M (float * Model) :=
  current_model <- GaussianHMM_fit self.(X) self.(lengths) n_components self.(random_state) ;;
  logL <- lift (score current_model self.(X) self.(lengths)) ;;
  sum_logL <- SelectorDIC_others self current_model ;;
  let current_score := (logL - np_average sum_logL)%float in
  ret (current_score, current_model).

(** [SelectorDIC.select]. *)
Definition SelectorDIC_select (self : ModelSelector) : M (option Model) :=
  best_model <- base_model self self.(n_constant) ;;
  let best_score := neg_infinity in
  '(best_score, best_model) <-
    for_each (range self.(min_n_components) (self.(max_n_components) + 1))
      (fun n_components '(best_score, best_model) =>
         try_except
           ('(current_score, current_model) <- SelectorDIC_candidate self n_components ;;
            if (best_score <? current_score)%float
            then ret (current_score, Some current_model)
            else ret (best_score, best_model))
           (ret (best_score, best_model)))
      (best_score, best_model) ;;
  ret best_model.

(** The folds of [SelectorCV.select]:
    [KFold(n_splits=min(3, len(self.lengths))).split(self.sequences)]. *)
Definition SelectorCV_folds (self : ModelSelector) : res (list (list nat * list nat)) :=
  match KFold (Z.min 3 (len self.(lengths))) with
  | Ret split_method => KFold_split split_method (List.length self.(sequences))
  | Exn => Exn
  end.

(** One fold: fit on the training sequences, score on the held-out ones. *)
Definition SelectorCV_fold (self : ModelSelector) (n_components : Z)
    (fold : list nat * list nat) : M (Model * float) :=
  let '(train_id, test_id) := fold in
  '(train_n, train_len) <- lift (combine_sequences train_id self.(sequences)) ;;
  '(test_n, test_len) <- lift (combine_sequences test_id self.(sequences)) ;;
  current_model <- GaussianHMM_fit train_n train_len n_components self.(random_state) ;;
  l <- lift (score current_model test_n test_len) ;;
  ret (current_model, l).

(** The body of [SelectorCV.select]'s [try] before the comparison: the
    mean of the held-out scores, and [current_model] as the fold loop
    leaves it.  The variable is read only after the loop, which ran at
    least twice when the split exists, so it holds the model of the last
    fold; were it unbound, reading it would raise. *)
Definition SelectorCV_candidate (self : ModelSelector) (n_components : Z)
  : M (float * Model) :=
  folds <- lift (SelectorCV_folds self) ;;
  '(logL, current_model) <-
    for_each folds
      (fun fold '(logL, _) =>
         '(current_model, l) <- SelectorCV_fold self n_components fold ;;
         ret (logL ++ [l], Some current_model))
      ([], None) ;;
  let current_score := np_average logL in
  current_model <- lift (match current_model with
                         | Some m => Ret m
                         | None => Exn
                         end) ;;
  ret (current_score, current_model).

(** [SelectorCV.select]. *)
Definition SelectorCV_select (self : ModelSelector) : M (option Model) :=
  best_model <- base_model self self.(n_constant) ;;
  let best_score := neg_infinity in
  '(best_score, best_model) <-
    for_each (range self.(min_n_components) (self.(max_n_components) + 1))
      (fun n_components '(best_score, best_model) =>
         try_except
           ('(current_score, current_model) <- SelectorCV_candidate self n_components ;;
            if (best_score <? current_score)%float
            then ret (current_score, Some current_model)
            else ret (best_score, best_model))
           (ret (best_score, best_model)))
      (best_score, best_model) ;;
  ret best_model.

(** ** The recognizer ([my_recognizer.py]) *)

(** The inner loop of [recognize]: the score of every word's model on one
    item, [-inf] where the scoring raises. *)
Definition recognize_scores (models : Dict.t Model) (X : Matrix) (lengths : list Z)
  : Dict.t float :=
  fold_left
    (fun scores '(word, model) =>
       match score model X lengths with
       | Ret l => Dict.set scores word l
       | Exn => Dict.set scores word neg_infinity
       end)
    (Dict.items models) [].

(** [max(scores, key=scores.get)]; [scores.get] is [None] off the keys,
    which [max] never asks for. *)
Definition recognize_guess (scores : Dict.t float) : res string :=
  py_max (fun word => match Dict.get scores word with
                      | Some l => l
                      | None => nan
                      end)
         (Dict.keys scores).

(** [recognize]: [all_Xlengths] is [test_set.get_all_Xlengths().items()],
    the items of the test set in its order. *)
Fixpoint recognize_loop (models : Dict.t Model) (all_Xlengths : list (Z * (Matrix * list Z)))
    (probabilities : list (Dict.t float)) (guesses : list string)
  : res (list (Dict.t float) * list string) :=
  match all_Xlengths with
  | [] => Ret (probabilities, guesses)
  | (i, (X, lengths)) :: rest =>
      let scores := recognize_scores models X lengths in
      let probabilities := probabilities ++ [scores] in
      match recognize_guess scores with
      | Ret guess_word => recognize_loop models rest probabilities (guesses ++ [guess_word])
      | Exn => Exn
      end
  end.

Definition recognize (models : Dict.t Model) (all_Xlengths : list (Z * (Matrix * list Z)))
  : res (list (Dict.t float) * list string) :=
  recognize_loop models all_Xlengths [] [].

End Program.

Unset Implicit Arguments.

(** ** Vocabulary of the statements *)

Section Vocabulary.
Context {B : Backend}.
Implicit Type self : ModelSelector.

(** One iteration of a selection loop on the outcome of its candidate:
    a better score replaces the running best, a failure changes nothing. *)
Definition keep_best (better : float -> float -> bool) (cand : Z -> res (float * Model))
    (st : float * option Model) (k : Z) : float * option Model :=
  match cand k with
  | Ret (cs, cm) => if better cs (fst st) then (cs, Some cm) else st
  | Exn => st
  end.

(** The candidate [k] of [lo..hi], with score [s] and model [m], is the
    first best one: no candidate of the range is better, and none before
    it is as good. *)
Definition first_best (better as_good : float -> float -> bool)
    (cand : Z -> res (float * Model)) (lo hi k : Z) (s : float) (m : Model) : Prop :=
  (lo <= k <= hi)%Z /\
  cand k = Ret (s, m) /\
  (forall k' s' m', (lo <= k' <= hi)%Z -> cand k' = Ret (s', m') -> better s' s = false) /\
  (forall k' s' m', (lo <= k' < k)%Z -> cand k' = Ret (s', m') -> as_good s' s = false).

(** The outcome of [base_model]: the constant-topology fallback. *)
Definition fallback (self : ModelSelector) : option Model :=
  match fit self.(X) self.(lengths) self.(n_constant) self.(random_state) with
  | Ret m => Some m
  | Exn => None
  end.

(** The topologies a selector tries. *)
Definition topologies (self : ModelSelector) : list Z :=
  range self.(min_n_components) (self.(max_n_components) + 1).

(** The log entry of a fit on the whole corpus of the selector's word. *)
Definition full_fit (self : ModelSelector) (k : Z) : FitCall :=
  mkFitCall self.(X) self.(lengths) k self.(random_state).

(** The loop body the three criterion selectors share, over the
    candidate computation of a topology. *)
Definition selection_body (better : float -> float -> bool) (candM : Z -> M (float * Model))
  : Z -> float * option Model -> M (float * option Model) :=
  fun n_components '(best_score, best_model) =>
    try_except
      ('(current_score, current_model) <- candM n_components ;;
       if better current_score best_score
       then ret (current_score, Some current_model)
       else ret (best_score, best_model))
      (ret (best_score, best_model)).

(** The outcome of the candidate computation of a topology. *)
Definition outcome_of (candM : Z -> M (float * Model)) (k : Z) : res (float * Model) :=
  result (candM k).

(** The words a DIC candidate is scored against: every word of the
    corpus set but the selector's own, in iteration order. *)
Definition competing self : list string :=
  filter (fun word => negb (String.eqb word self.(this_word))) (Dict.keys self.(words)).

(** The score of a model on a competing word. *)
Definition competing_score self (m : Model) (word : string) : res float :=
  match Dict.getitem self.(hwords) word with
  | Ret (word_n, word_len) => score m word_n word_len
  | Exn => Exn
  end.

(** The scores on the competing words, all or nothing. *)
Definition competing_scores self (m : Model) : res (list float) :=
  fold_right (fun word r =>
                match competing_score self m word, r with
                | Ret l, Ret ls => Ret (l :: ls)
                | _, _ => Exn
                end)
             (Ret []) (competing self).

(** The corpus can be cut into folds: [KFold] accepts
    [min(3, len(self.lengths))] splits of [self.sequences]. *)
Definition splittable self : Prop :=
  (2 <= len self.(lengths))%Z /\
  (Z.min 3 (len self.(lengths)) <= len self.(sequences))%Z.

(** The outcome of one fold: the model fitted on the training sequences
    and its score on the held-out ones. *)
Definition fold_outcome self (k : Z) (fold : list nat * list nat) : res (Model * float) :=
  match combine_sequences (fst fold) self.(sequences),
        combine_sequences (snd fold) self.(sequences) with
  | Ret (train_n, train_len), Ret (test_n, test_len) =>
      match fit train_n train_len k self.(random_state) with
      | Ret m =>
          match score m test_n test_len with
          | Ret l => Ret (m, l)
          | Exn => Exn
          end
      | Exn => Exn
      end
  | _, _ => Exn
  end.

(** The outcomes of all the folds, all or nothing. *)
Definition fold_outcomes self (k : Z) (folds : list (list nat * list nat))
  : res (list (Model * float)) :=
  fold_right (fun fold r =>
                match fold_outcome self k fold, r with
                | Ret o, Ret os => Ret (o :: os)
                | _, _ => Exn
                end)
             (Ret []) folds.

(** The body of the fold loop of [SelectorCV_candidate]. *)
Definition fold_body (self : ModelSelector) (k : Z)
  : list nat * list nat -> list float * option Model -> M (list float * option Model) :=
  fun fold '(logL, _) =>
    '(current_model, l) <- SelectorCV_fold self k fold ;;
    ret (logL ++ [l], Some current_model).

(** The entry [recognize] records for a model on an item. *)
Definition recorded (model : Model) (X : Matrix) (lengths : list Z) : float :=
  match score model X lengths with
  | Ret l => l
  | Exn => neg_infinity
  end.

(** The body of the loop of [recognize_scores]. *)
Definition scores_step (X : Matrix) (lengths : list Z)
  : Dict.t float -> string * Model -> Dict.t float :=
  fun scores '(word, model) =>
    match score model X lengths with
    | Ret l => Dict.set scores word l
    | Exn => Dict.set scores word neg_infinity
    end.

(** The guess of a row of scores is its first word of greatest score:
    no word of the row has a greater score, and no word before it has a
    score as great. *)
Definition first_max (scores : Dict.t float) (guess : string) : Prop :=
  exists l1 l2 s,
    Dict.keys scores = l1 ++ guess :: l2 /\
    Dict.get scores guess = Some s /\
    (forall w s', Dict.get scores w = Some s' -> (s <? s')%float = false) /\
    (forall w s', In w l1 -> Dict.get scores w = Some s' -> (s <=? s')%float = false).

(** The item an output row belongs to: the row holds the scores of the
    bank on the item's sequence. *)
Definition row_of (models : Dict.t Model) (item : Z * (Matrix * list Z))
    (scores : Dict.t float) : Prop :=
  scores = recognize_scores models (fst (snd item)) (snd (snd item)).
End Vocabulary.

(** Orders on scores: lower is better (BIC), higher is better (DIC, CV). *)
Definition lower (x y : float) : bool := (x <? y)%float.
Definition lower_eq (x y : float) : bool := (x <=? y)%float.
Definition higher (x y : float) : bool := (y <? x)%float.
Definition higher_eq (x y : float) : bool := (y <=? x)%float.

(** ** Concrete corpora and a concrete backend *)

Module Scenario.
Local Open Scope float_scope.

(** A fitted model of the toy backend: its number of states and the
    number of rows it was fitted on. *)
Record ToyModel : Type := mkToyModel { tm_states : Z; tm_rows : Z }.

Definition Z2float (z : Z) : float := SF2Prim (binary_normalize prec emax z 0 false).

(** A NaN among the observations: hmmlearn's input validation refuses it. *)
Definition has_nan (X : Matrix) : bool :=
  existsb (existsb (fun x => negb (x =? x))) X.

(** The fit raises on a NaN and when there are fewer rows than states. *)
Definition toy_fit (X : Matrix) (lengths : list Z) (n_components random_state : Z)
  : res ToyModel :=
  if has_nan X || (n_components <=? 0)%Z || (len X <? n_components)%Z then Exn
  else Ret (mkToyModel n_components (len X)).

(** The score raises on a NaN; otherwise the log-likelihood is minus the
    distance of the first feature of every row to the number of states. *)
Definition toy_score (m : ToyModel) (X : Matrix) (lengths : list Z) : res float :=
  if has_nan X then Exn
  else Ret (fold_left (fun acc row => acc - abs (hd 0 row - Z2float m.(tm_states))) X 0).

(** [np.log] at the row counts of the corpora below; no other is asked for. *)
Definition toy_log (N : Z) : float :=
  match N with
  | 1%Z => 0
  | 2%Z => 0x1.62e42fefa39efp-1
  | 3%Z => 0x1.193ea7aad030bp+0
  | 4%Z => 0x1.62e42fefa39efp+0
  | 5%Z => 0x1.9c041f7ed8d33p+0
  | _ => nan
  end.

(** The mean of a short list, [nan] for the empty one. *)
Definition toy_average (l : list float) : float :=
  fold_left add l 0 / Z2float (len l).

#[export] Instance toy : Backend := {|
  Model := ToyModel;
  fit := toy_fit;
  score := toy_score;
  np_log := toy_log;
  np_average := toy_average
|}.

(** Three words with one feature per row: BOOK has two recordings, CHAIR
    one, and the recording of JOHN holds a NaN. *)
Definition book_sequences : list Sequence := [[[2]; [2]; [2]]; [[2]; [2]]].
Definition chair_sequences : list Sequence := [[[3]; [3]]].
Definition john_sequences : list Sequence := [[[1]; [nan]]].

Definition all_word_sequences : Dict.t (list Sequence) :=
  [("BOOK"%string, book_sequences); ("CHAIR"%string, chair_sequences);
   ("JOHN"%string, john_sequences)].

Definition all_word_Xlengths : Dict.t (Matrix * list Z) :=
  [("BOOK"%string, ([[2]; [2]; [2]; [2]; [2]], [3%Z; 2%Z]));
   ("CHAIR"%string, ([[3]; [3]], [2%Z]));
   ("JOHN"%string, ([[1]; [nan]], [2%Z]))].

(** The selector of a word over the topologies 2 and 3, with the default
    constant topology 3 and random state 14. *)
Definition selector_of (corpus_sequences : Dict.t (list Sequence))
    (corpus_Xlengths : Dict.t (Matrix * list Z)) (word : string) : ModelSelector :=
  match ModelSelector_init corpus_sequences corpus_Xlengths word 3 2 3 14 false with
  | Ret self => self
  | Exn => mkModelSelector [] [] [] [] [] word 3 2 3 14 false
  end.

Definition book : ModelSelector := selector_of all_word_sequences all_word_Xlengths "BOOK".
Definition chair : ModelSelector := selector_of all_word_sequences all_word_Xlengths "CHAIR".

(** The same corpus without JOHN. *)
Definition clean_sequences : Dict.t (list Sequence) :=
  [("BOOK"%string, book_sequences); ("CHAIR"%string, chair_sequences)].
Definition clean_Xlengths : Dict.t (Matrix * list Z) :=
  [("BOOK"%string, ([[2]; [2]; [2]; [2]; [2]], [3%Z; 2%Z]));
   ("CHAIR"%string, ([[3]; [3]], [2%Z]))].
Definition clean_book : ModelSelector := selector_of clean_sequences clean_Xlengths "BOOK".

(** A bank of two models and a test set of three items, the last one
    unscorable. *)
Definition bank : Dict.t Model :=
  [("BOOK"%string, mkToyModel 2 5); ("CHAIR"%string, mkToyModel 3 2)].
Definition test_items : list (Z * (Matrix * list Z)) :=
  [(0%Z, ([[2]; [2]], [2%Z])); (1%Z, ([[3]], [1%Z])); (2%Z, ([[nan]], [1%Z]))].

(** BOOK over an empty range of topologies: from 5 to 4. *)
Definition book_empty_range : ModelSelector :=
  mkModelSelector all_word_sequences all_word_Xlengths book_sequences
    [[2]; [2]; [2]; [2]; [2]] [3%Z; 2%Z] "BOOK" 3 5 4 14 false.

(** BOOK as the only word of its corpus. *)
Definition solo_book : ModelSelector :=
  selector_of [("BOOK"%string, book_sequences)]
    [("BOOK"%string, ([[2]; [2]; [2]; [2]; [2]], [3%Z; 2%Z]))] "BOOK".

(** A backend whose bank may hold [None] for a word, as a driver that
    stores the result of a failed selection would: scoring with [None]
    raises ([None] has no [score]). *)
Definition with_none : Backend := {|
  Model := option ToyModel;
  fit := fun X lengths n_components random_state =>
           match toy_fit X lengths n_components random_state with
           | Ret m => Ret (Some m)
           | Exn => Exn
           end;
  score := fun model X lengths =>
             match model with
             | Some m => toy_score m X lengths
             | None => Exn
             end;
  np_log := toy_log;
  np_average := toy_average
|}.

(** A bank with no model for BOOK. *)
Definition bank_with_none : Dict.t (@Model with_none) :=
  [("BOOK"%string, None); ("CHAIR"%string, Some (mkToyModel 3 2))].
End Scenario.

(** * Properties *)

(** ** The order of floats *)

Module FloatOrder.
Local Open Scope float_scope.

Ltac cases_of_compare :=
  simpl; try discriminate; try reflexivity; auto;
  change (Pos.compare_cont Eq ?a ?b) with (Pos.compare a b) in *.

Lemma SFcompare_lt_trans x y z :
  SFcompare x y = Some Lt -> SFcompare y z = Some Lt -> SFcompare x z = Some Lt.
Proof.
  destruct x as [sx|sx| |sx mx ex], y as [sy|sy| |sy my ey], z as [sz|sz| |sz mz ez];
    simpl; try discriminate; try destruct sx; try destruct sy; try destruct sz;
    cases_of_compare.
  all: destruct (Z.compare_spec ex ey), (Z.compare_spec ey ez), (Z.compare_spec ex ez);
    destruct (Pos.compare_spec mx my), (Pos.compare_spec my mz), (Pos.compare_spec mx mz);
    simpl; try discriminate; try reflexivity; intros; lia.
Qed.

Lemma SFcompare_eq_lt_trans x y z :
  SFcompare x y = Some Eq -> SFcompare y z = Some Lt -> SFcompare x z = Some Lt.
Proof.
  destruct x as [sx|sx| |sx mx ex], y as [sy|sy| |sy my ey], z as [sz|sz| |sz mz ez];
    simpl; try discriminate; try destruct sx; try destruct sy; try destruct sz;
    cases_of_compare.
  all: destruct (Z.compare_spec ex ey), (Z.compare_spec ey ez), (Z.compare_spec ex ez);
    destruct (Pos.compare_spec mx my), (Pos.compare_spec my mz), (Pos.compare_spec mx mz);
    simpl; try discriminate; try reflexivity; intros; lia.
Qed.

Lemma SFcompare_lt_eq_trans x y z :
  SFcompare x y = Some Lt -> SFcompare y z = Some Eq -> SFcompare x z = Some Lt.
Proof.
  destruct x as [sx|sx| |sx mx ex], y as [sy|sy| |sy my ey], z as [sz|sz| |sz mz ez];
    simpl; try discriminate; try destruct sx; try destruct sy; try destruct sz;
    cases_of_compare.
  all: destruct (Z.compare_spec ex ey), (Z.compare_spec ey ez), (Z.compare_spec ex ez);
    destruct (Pos.compare_spec mx my), (Pos.compare_spec my mz), (Pos.compare_spec mx mz);
    simpl; try discriminate; try reflexivity; intros; lia.
Qed.

Lemma SFcompare_irrefl x : SFcompare x x <> Some Lt.
Proof.
  destruct x as [s|s| |s m e]; simpl; try destruct s; try discriminate.
  all: rewrite Z.compare_refl; cases_of_compare; rewrite Pos.compare_refl; discriminate.
Qed.

Lemma ltb_irrefl x : (x <? x) = false.
Proof.
  rewrite ltb_spec. unfold SFltb.
  destruct (SFcompare (Prim2SF x) (Prim2SF x)) as [[]|] eqn:E; auto.
  now apply SFcompare_irrefl in E.
Qed.

Lemma ltb_trans x y z : (x <? y) = true -> (y <? z) = true -> (x <? z) = true.
Proof.
  rewrite !ltb_spec. unfold SFltb.
  destruct (SFcompare (Prim2SF x) (Prim2SF y)) as [[]|] eqn:E1; try discriminate.
  destruct (SFcompare (Prim2SF y) (Prim2SF z)) as [[]|] eqn:E2; try discriminate.
  now rewrite (SFcompare_lt_trans _ _ _ E1 E2).
Qed.

Lemma leb_ltb_trans x y z : (x <=? y) = true -> (y <? z) = true -> (x <? z) = true.
Proof.
  rewrite !ltb_spec, leb_spec. unfold SFltb, SFleb.
  destruct (SFcompare (Prim2SF x) (Prim2SF y)) as [[]|] eqn:E1; try discriminate;
    destruct (SFcompare (Prim2SF y) (Prim2SF z)) as [[]|] eqn:E2; try discriminate;
    intros _ _.
  - now rewrite (SFcompare_eq_lt_trans _ _ _ E1 E2).
  - now rewrite (SFcompare_lt_trans _ _ _ E1 E2).
Qed.

Lemma ltb_leb_trans x y z : (x <? y) = true -> (y <=? z) = true -> (x <? z) = true.
Proof.
  rewrite !ltb_spec, leb_spec. unfold SFltb, SFleb.
  destruct (SFcompare (Prim2SF x) (Prim2SF y)) as [[]|] eqn:E1; try discriminate;
    destruct (SFcompare (Prim2SF y) (Prim2SF z)) as [[]|] eqn:E2; try discriminate;
    intros _ _.
  - now rewrite (SFcompare_lt_eq_trans _ _ _ E1 E2).
  - now rewrite (SFcompare_lt_trans _ _ _ E1 E2).
Qed.

Lemma ltb_leb x y : (x <? y) = true -> (x <=? y) = true.
Proof.
  rewrite ltb_spec, leb_spec. unfold SFltb, SFleb.
  now destruct (SFcompare (Prim2SF x) (Prim2SF y)) as [[]|].
Qed.
End FloatOrder.

(** ** Ranges *)

Lemma range_In lo hi k : In k (range lo hi) <-> (lo <= k < hi)%Z.
Proof.
  unfold range. rewrite in_map_iff. split.
  - intros (i & <- & Hi). apply in_seq in Hi. lia.
  - intros Hk. exists (Z.to_nat (k - lo)). split; [lia | apply in_seq; lia].
Qed.

Lemma range_sorted_from lo n start :
  forall l1 k l2,
    map (fun i => (lo + Z.of_nat i)%Z) (seq start n) = l1 ++ k :: l2 ->
    (forall k', In k' l1 -> (k' < k)%Z) /\ (forall k', In k' l2 -> (k < k')%Z).
Proof.
  revert start. induction n as [|n IH]; intros start l1 k l2 E; simpl in E.
  - now destruct l1.
  - destruct l1 as [|a l1]; simpl in E; injection E as Ea El.
    + split; [easy|]. intros k' Hk'. rewrite <- El in Hk'.
      apply in_map_iff in Hk' as (i & <- & Hi). apply in_seq in Hi. lia.
    + destruct (IH _ _ _ _ El) as [H1 H2]. split; [|exact H2].
      intros k' [<-|Hk']; [|now apply H1].
      assert (Hk : In k (map (fun i => (lo + Z.of_nat i)%Z) (seq (S start) n)))
        by (rewrite El; apply in_elt).
      apply in_map_iff in Hk as (i & <- & Hi). apply in_seq in Hi. lia.
Qed.

(** A split of a range at one of its elements is the range before it and
    the range after it. *)
Lemma range_split lo hi l1 k l2 :
  range lo hi = l1 ++ k :: l2 ->
  (lo <= k < hi)%Z /\
  (forall k', In k' l1 <-> (lo <= k' < k)%Z) /\
  (forall k', In k' l2 <-> (k < k' < hi)%Z).
Proof.
  intros E.
  assert (Hk : (lo <= k < hi)%Z) by (apply range_In; rewrite E; apply in_elt).
  destruct (range_sorted_from _ _ _ _ _ _ E) as [H1 H2].
  assert (Hin : forall k', In k' (l1 ++ k :: l2) <-> (lo <= k' < hi)%Z)
    by (intros k'; rewrite <- E; apply range_In).
  split; [exact Hk|]. split; intros k'; split; intros Hk'.
  - specialize (H1 _ Hk'). assert (In k' (l1 ++ k :: l2)) by (apply in_or_app; now left).
    apply Hin in H. lia.
  - assert (H : In k' (l1 ++ k :: l2)) by (apply Hin; lia).
    apply in_app_or in H as [H|[H|H]]; [exact H | lia | specialize (H2 _ H); lia].
  - specialize (H2 _ Hk'). assert (In k' (l1 ++ k :: l2)) by (apply in_or_app; right; now right).
    apply Hin in H. lia.
  - assert (H : In k' (l1 ++ k :: l2)) by (apply Hin; lia).
    apply in_app_or in H as [H|[H|H]]; [specialize (H1 _ H); lia | lia | exact H].
Qed.

(** ** The computation monad *)

Section MonadFacts.
Context {A C : Type}.

Lemma result_bind (c : M A) (k : A -> M C) :
  result (bind c k) = match result c with Ret a => result (k a) | Exn => Exn end.
Proof. now destruct c as [l [a|]]. Qed.

Lemma log_bind (c : M A) (k : A -> M C) :
  log (bind c k) = log c ++ match result c with Ret a => log (k a) | Exn => [] end.
Proof. destruct c as [l [a|]]; simpl; [reflexivity | now rewrite app_nil_r]. Qed.

Lemma bind_lift_Ret (a : A) (k : A -> M C) : bind (lift (Ret a)) k = k a.
Proof. unfold bind, lift, log, result. now destruct (k a). Qed.

Lemma bind_lift_Exn (k : A -> M C) : bind (lift Exn) k = ([], Exn).
Proof. reflexivity. Qed.

Lemma result_try_except (body handler : M A) :
  result (try_except body handler)
  = match result body with Ret a => Ret a | Exn => result handler end.
Proof. now destruct body as [l [a|]]. Qed.

Lemma log_try_except (body handler : M A) :
  log (try_except body handler)
  = log body ++ match result body with Ret _ => [] | Exn => log handler end.
Proof. destruct body as [l [a|]]; simpl; [now rewrite app_nil_r | reflexivity]. Qed.
End MonadFacts.

(** ** Selection loops *)

Section SelectionLoop.
Context {B : Backend}.
Variable better : float -> float -> bool.
Variable candM : Z -> M (float * Model).

Local Abbreviation body := (selection_body better candM).
Local Abbreviation cand := (outcome_of candM).

Lemma body_result k st : result (body k st) = Ret (keep_best better cand st k).
Proof.
  destruct st as [bs bm]. unfold selection_body, keep_best, outcome_of.
  rewrite result_try_except, result_bind.
  destruct (result (candM k)) as [[cs cm]|]; simpl; [|reflexivity].
  now destruct (better cs bs).
Qed.

Lemma body_log k st : log (body k st) = log (candM k).
Proof.
  destruct st as [bs bm]. unfold selection_body.
  rewrite log_try_except, result_bind, log_bind.
  destruct (result (candM k)) as [[cs cm]|]; simpl.
  - destruct (better cs bs); simpl; now rewrite !app_nil_r.
  - now rewrite !app_nil_r.
Qed.

Lemma loop_result ks st :
  result (for_each ks body st) = Ret (fold_left (keep_best better cand) ks st).
Proof.
  revert st. induction ks as [|k ks IH]; intros st; simpl; [reflexivity|].
  now rewrite result_bind, body_result, IH.
Qed.

Lemma loop_log ks st : log (for_each ks body st) = flat_map (fun k => log (candM k)) ks.
Proof.
  revert st. induction ks as [|k ks IH]; intros st; simpl; [reflexivity|].
  now rewrite log_bind, body_result, body_log, IH.
Qed.

(** A candidate that fails leaves the loop as if it were not there. *)
Lemma keep_best_skip l1 k l2 st :
  cand k = Exn ->
  fold_left (keep_best better cand) (l1 ++ k :: l2) st
  = fold_left (keep_best better cand) (l1 ++ l2) st.
Proof.
  intros E. rewrite !fold_left_app. simpl. f_equal.
  generalize (fold_left (keep_best better cand) l1 st). intros st'.
  unfold keep_best. now rewrite E.
Qed.

Lemma keep_best_all_fail ks st :
  (forall k, In k ks -> cand k = Exn) -> fold_left (keep_best better cand) ks st = st.
Proof.
  revert st. induction ks as [|k ks IH]; intros st Hall; simpl; [reflexivity|].
  replace (keep_best better cand st k) with st
    by (unfold keep_best; now rewrite (Hall k) by now left).
  apply IH. intros k' Hk'. apply Hall. now right.
Qed.

Variable as_good : float -> float -> bool.
Hypothesis better_irrefl : forall x, better x x = false.
Hypothesis better_trans : forall x y z, better x y = true -> better y z = true -> better x z = true.
Hypothesis as_good_trans : forall x y z, as_good x y = true -> better y z = true -> better x z = true.
Hypothesis better_as_good : forall x y, better x y = true -> as_good x y = true.

Lemma not_better x y z : better x y = false -> better z y = true -> as_good x z = false.
Proof.
  intros Hxy Hzy. destruct (as_good x z) eqn:E; [|reflexivity].
  now rewrite (as_good_trans _ _ _ E Hzy) in Hxy.
Qed.

Lemma not_as_good x y : as_good x y = false -> better x y = false.
Proof.
  intros H. destruct (better x y) eqn:E; [|reflexivity].
  now rewrite (better_as_good _ _ E) in H.
Qed.

(** What a selection loop leaves: the initial state when no candidate
    betters the initial score, and otherwise the first best candidate. *)
Lemma keep_best_spec ks s0 m0 :
  (fold_left (keep_best better cand) ks (s0, m0) = (s0, m0) /\
   forall k s m, In k ks -> cand k = Ret (s, m) -> better s s0 = false)
  \/
  (exists l1 k l2 s m,
      ks = l1 ++ k :: l2 /\ cand k = Ret (s, m) /\
      fold_left (keep_best better cand) ks (s0, m0) = (s, Some m) /\
      better s s0 = true /\
      (forall k' s' m', In k' l1 -> cand k' = Ret (s', m') -> as_good s' s = false) /\
      (forall k' s' m', In k' l2 -> cand k' = Ret (s', m') -> better s' s = false)).
Proof.
  induction ks as [|c ks IH] using rev_ind.
  - left. split; [reflexivity | intros k s m []].
  - rewrite fold_left_app. simpl.
    destruct IH as [[E Hall] | (l1 & k & l2 & s & m & Eks & Ek & E & Hs & H1 & H2)].
    + rewrite E. unfold keep_best. simpl.
      destruct (cand c) as [[cs cm]|] eqn:Ec.
      * destruct (better cs s0) eqn:Hb.
        -- right. exists ks, c, [], cs, cm. repeat split; auto.
           ++ intros k' s' m' Hk' Ek'.
              apply (not_better s' s0 cs); [exact (Hall _ _ _ Hk' Ek') | exact Hb].
           ++ intros k' s' m' [].
        -- left. split; [reflexivity|]. intros k s m Hk Ek.
           apply in_app_or in Hk as [Hk|[<-|[]]]; [eauto|]. congruence.
      * left. split; [reflexivity|]. intros k s m Hk Ek.
        apply in_app_or in Hk as [Hk|[<-|[]]]; [eauto|]. congruence.
    + rewrite E. unfold keep_best. simpl.
      destruct (cand c) as [[cs cm]|] eqn:Ec.
      * destruct (better cs s) eqn:Hb.
        -- right. exists ks, c, [], cs, cm. repeat split; eauto.
           ++ intros k' s' m' Hk' Ek'. rewrite Eks in Hk'.
              apply in_app_or in Hk' as [Hk'|[<-|Hk']].
              ** destruct (as_good s' cs) eqn:Ea; [|reflexivity].
                 pose proof (as_good_trans _ _ _ Ea Hb) as Hlt.
                 apply better_as_good in Hlt. now rewrite (H1 _ _ _ Hk' Ek') in Hlt.
              ** assert (s' = s) by congruence. subst s'.
                 apply (not_better s s cs); [apply better_irrefl | exact Hb].
              ** apply (not_better s' s cs); [exact (H2 _ _ _ Hk' Ek') | exact Hb].
           ++ intros k' s' m' [].
        -- right. exists l1, k, (l2 ++ [c]), s, m. repeat split; auto.
           ++ rewrite Eks. now rewrite <- app_assoc.
           ++ intros k' s' m' Hk' Ek'.
              apply in_app_or in Hk' as [Hk'|[<-|[]]]; [eauto|]. congruence.
      * right. exists l1, k, (l2 ++ [c]), s, m. repeat split; auto.
        -- rewrite Eks. now rewrite <- app_assoc.
        -- intros k' s' m' Hk' Ek'.
           apply in_app_or in Hk' as [Hk'|[<-|[]]]; [eauto|]. congruence.
Qed.

(** The same over a range of topologies. *)
Lemma keep_best_range lo hi s0 m0 :
  (fold_left (keep_best better cand) (range lo (hi + 1)) (s0, m0) = (s0, m0) /\
   forall k s m, (lo <= k <= hi)%Z -> cand k = Ret (s, m) -> better s s0 = false)
  \/
  (exists k s m,
      first_best better as_good cand lo hi k s m /\ better s s0 = true /\
      fold_left (keep_best better cand) (range lo (hi + 1)) (s0, m0) = (s, Some m)).
Proof.
  destruct (keep_best_spec (range lo (hi + 1)) s0 m0)
    as [[E Hall] | (l1 & k & l2 & s & m & Eks & Ek & E & Hs & H1 & H2)].
  - left. split; [exact E|]. intros k s m Hk. apply Hall, range_In. lia.
  - right. exists k, s, m. destruct (range_split _ _ _ _ _ Eks) as (Hk & Hl1 & Hl2).
    repeat split; auto; try lia.
    + intros k' s' m' Hk' Ek'.
      destruct (Z.lt_trichotomy k' k) as [Hlt|[->|Hgt]].
      * apply not_as_good. apply (H1 k' s' m'); [apply Hl1; lia | exact Ek'].
      * assert (s' = s) by congruence. subst s'. apply better_irrefl.
      * apply (H2 k' s' m'); [apply Hl2; lia | exact Ek'].
    + intros k' s' m' Hk'. apply H1, Hl1. lia.
Qed.
End SelectionLoop.

(** ** The selectors as selection loops *)

Section SelectorFacts.
Context {B : Backend}.
Implicit Type self : ModelSelector.

Lemma base_model_result self k :
  result (base_model self k)
  = Ret (match fit self.(X) self.(lengths) k self.(random_state) with
         | Ret m => Some m
         | Exn => None
         end).
Proof.
  unfold base_model, GaussianHMM_fit. simpl.
  now destruct (fit (X self) (lengths self) k (random_state self)).
Qed.

Lemma base_model_log self k : log (base_model self k) = [full_fit self k].
Proof.
  unfold base_model, GaussianHMM_fit. simpl.
  now destruct (fit (X self) (lengths self) k (random_state self)).
Qed.

Lemma fallback_result self : result (base_model self self.(n_constant)) = Ret (fallback self).
Proof. apply base_model_result. Qed.

Lemma SelectorBIC_select_result self row rows :
  self.(X) = row :: rows ->
  result (SelectorBIC_select self)
  = Ret (snd (fold_left
                (keep_best lower (outcome_of (SelectorBIC_candidate self (len row))))
                (topologies self) (infinity, fallback self))).
Proof.
  intros EX. unfold SelectorBIC_select.
  rewrite EX, result_bind, fallback_result, bind_lift_Ret, result_bind.
  pose proof (loop_result lower (SelectorBIC_candidate self (len row)) (topologies self)
                (infinity, fallback self)) as H.
  unfold topologies, lower, selection_body in H. rewrite H.
  now destruct (fold_left _ _ _).
Qed.

Lemma SelectorBIC_select_log self row rows :
  self.(X) = row :: rows ->
  log (SelectorBIC_select self)
  = full_fit self self.(n_constant)
    :: flat_map (fun k => log (SelectorBIC_candidate self (len row) k)) (topologies self).
Proof.
  intros EX. unfold SelectorBIC_select.
  rewrite EX, log_bind, fallback_result, base_model_log, bind_lift_Ret, log_bind.
  pose proof (loop_result lower (SelectorBIC_candidate self (len row)) (topologies self)
                (infinity, fallback self)) as H.
  pose proof (loop_log lower (SelectorBIC_candidate self (len row)) (topologies self)
                (infinity, fallback self)) as L.
  unfold topologies, lower, selection_body in H, L. rewrite H, L.
  destruct (fold_left _ _ _). simpl. now rewrite app_nil_r.
Qed.

Lemma SelectorBIC_select_empty self :
  self.(X) = [] ->
  result (SelectorBIC_select self) = Exn /\
  log (SelectorBIC_select self) = [full_fit self self.(n_constant)].
Proof.
  intros EX. unfold SelectorBIC_select.
  rewrite EX, result_bind, log_bind, fallback_result, base_model_log, bind_lift_Exn.
  now simpl.
Qed.

Lemma SelectorDIC_select_result self :
  result (SelectorDIC_select self)
  = Ret (snd (fold_left
                (keep_best higher (outcome_of (SelectorDIC_candidate self)))
                (topologies self) (neg_infinity, fallback self))).
Proof.
  unfold SelectorDIC_select.
  rewrite result_bind, fallback_result, result_bind.
  pose proof (loop_result higher (SelectorDIC_candidate self) (topologies self)
                (neg_infinity, fallback self)) as H.
  unfold topologies, higher, selection_body in H. rewrite H.
  now destruct (fold_left _ _ _).
Qed.

Lemma SelectorDIC_select_log self :
  log (SelectorDIC_select self)
  = full_fit self self.(n_constant)
    :: flat_map (fun k => log (SelectorDIC_candidate self k)) (topologies self).
Proof.
  unfold SelectorDIC_select.
  rewrite log_bind, fallback_result, base_model_log, log_bind.
  pose proof (loop_result higher (SelectorDIC_candidate self) (topologies self)
                (neg_infinity, fallback self)) as H.
  pose proof (loop_log higher (SelectorDIC_candidate self) (topologies self)
                (neg_infinity, fallback self)) as L.
  unfold topologies, higher, selection_body in H, L. rewrite H, L.
  destruct (fold_left _ _ _). simpl. now rewrite app_nil_r.
Qed.

Lemma SelectorCV_select_result self :
  result (SelectorCV_select self)
  = Ret (snd (fold_left
                (keep_best higher (outcome_of (SelectorCV_candidate self)))
                (topologies self) (neg_infinity, fallback self))).
Proof.
  unfold SelectorCV_select.
  rewrite result_bind, fallback_result, result_bind.
  pose proof (loop_result higher (SelectorCV_candidate self) (topologies self)
                (neg_infinity, fallback self)) as H.
  unfold topologies, higher, selection_body in H. rewrite H.
  now destruct (fold_left _ _ _).
Qed.

Lemma SelectorCV_select_log self :
  log (SelectorCV_select self)
  = full_fit self self.(n_constant)
    :: flat_map (fun k => log (SelectorCV_candidate self k)) (topologies self).
Proof.
  unfold SelectorCV_select.
  rewrite log_bind, fallback_result, base_model_log, log_bind.
  pose proof (loop_result higher (SelectorCV_candidate self) (topologies self)
                (neg_infinity, fallback self)) as H.
  pose proof (loop_log higher (SelectorCV_candidate self) (topologies self)
                (neg_infinity, fallback self)) as L.
  unfold topologies, higher, selection_body in H, L. rewrite H, L.
  destruct (fold_left _ _ _). simpl. now rewrite app_nil_r.
Qed.
End SelectorFacts.

(** ** The candidates of BIC and DIC *)

Section Candidates.
Context {B : Backend}.
Implicit Type self : ModelSelector.

Lemma SelectorBIC_candidate_log self d k : log (SelectorBIC_candidate self d k) = [full_fit self k].
Proof.
  unfold SelectorBIC_candidate, GaussianHMM_fit, full_fit, bind, lift, ret, log, result.
  simpl. destruct (fit _ _ _ _) as [m|]; [|reflexivity].
  simpl. destruct (score m _ _) as [l|]; [|reflexivity].
  simpl. now destruct (float_of_int _).
Qed.

(** The criterion of a BIC candidate. *)
Lemma SelectorBIC_candidate_result self d k b m :
  result (SelectorBIC_candidate self d k) = Ret (b, m) <->
  exists logL p_float,
    fit self.(X) self.(lengths) k self.(random_state) = Ret m /\
    score m self.(X) self.(lengths) = Ret logL /\
    float_of_int (k * k + 2 * d * k - 1) = Ret p_float /\
    b = ((-2) * logL + p_float * np_log (len self.(X)))%float.
Proof.
  unfold SelectorBIC_candidate, GaussianHMM_fit, bind, lift, ret, log, result.
  simpl. destruct (fit _ _ _ _) as [m'|]; simpl.
  - destruct (score m' _ _) as [l|] eqn:Es; simpl.
    + destruct (float_of_int _) as [pf|]; simpl.
      * split.
        -- intros E. injection E as <- <-. exists l, pf. now rewrite Es.
        -- intros (l' & pf' & Em & El & Ep & ->).
           injection Em as <-. rewrite Es in El. injection El as <-. now injection Ep as <-.
      * split; [discriminate|]. now intros (l' & pf' & _ & _ & Ep & _).
    + split; [discriminate|]. intros (l' & pf' & Em & El & _).
      injection Em as <-. congruence.
  - split; [discriminate|]. now intros (l' & pf' & Em & _).
Qed.

Lemma SelectorDIC_others_acc self m ws acc :
  for_each ws
    (fun word sum_logL =>
       if String.eqb word self.(this_word) then ret sum_logL
       else
         '(word_n, word_len) <- lift (Dict.getitem self.(hwords) word) ;;
         l <- lift (score m word_n word_len) ;;
         ret (sum_logL ++ [l]))
    acc
  = ([], match
        fold_right (fun word r =>
                      match competing_score self m word, r with
                      | Ret l, Ret ls => Ret (l :: ls)
                      | _, _ => Exn
                      end)
                   (Ret [])
                   (filter (fun word => negb (String.eqb word self.(this_word))) ws)
      with
      | Ret ls => Ret (acc ++ ls)
      | Exn => Exn
      end).
Proof.
  revert acc. induction ws as [|w ws IH]; intros acc.
  - simpl. now rewrite app_nil_r.
  - cbn [for_each filter]. destruct (String.eqb w (this_word self)); cbn [negb fold_right].
    + change (ret acc) with (lift (Ret acc)). rewrite bind_lift_Ret. apply IH.
    + unfold competing_score.
      destruct (Dict.getitem (hwords self) w) as [[word_n word_len]|]; [|reflexivity].
      rewrite bind_lift_Ret.
      destruct (score m word_n word_len) as [l|]; [|reflexivity].
      rewrite bind_lift_Ret.
      change (ret (acc ++ [l])) with (lift (Ret (acc ++ [l]))).
      rewrite bind_lift_Ret, IH.
      destruct (fold_right _ _ _) as [ls|]; [|reflexivity].
      now rewrite <- app_assoc.
Qed.

Lemma SelectorDIC_others_eq self m : SelectorDIC_others self m = ([], competing_scores self m).
Proof.
  unfold SelectorDIC_others. rewrite SelectorDIC_others_acc.
  unfold competing_scores, competing. now destruct (fold_right _ _ _).
Qed.

Lemma competing_scores_Ret self m ls :
  competing_scores self m = Ret ls <->
  Forall2 (fun word l => competing_score self m word = Ret l) (competing self) ls.
Proof.
  unfold competing_scores. revert ls.
  induction (competing self) as [|w ws IH]; intros ls; simpl.
  - split; [intros E; injection E as <-; constructor | intros H; now inversion H].
  - destruct (competing_score self m w) as [l|] eqn:El.
    + destruct (fold_right _ _ ws) as [ls'|].
      * split.
        -- intros E. injection E as <-. constructor; [exact El | now apply IH].
        -- intros H. inversion H as [|? l' ? ls'' El' Hls]; subst.
           rewrite El in El'. injection El' as <-.
           apply IH in Hls. now injection Hls as <-.
      * split; [discriminate|]. intros H. inversion H as [|? l' ? ls'' El' Hls]; subst.
        now apply IH in Hls.
    + split; [now destruct (fold_right _ _ ws) | ].
      intros H. inversion H as [|? l' ? ls'' El' Hls]; subst. congruence.
Qed.

Lemma competing_scores_Exn self m word :
  In word (competing self) -> competing_score self m word = Exn ->
  competing_scores self m = Exn.
Proof.
  intros Hin Hfail. destruct (competing_scores self m) as [ls|] eqn:E; [|reflexivity].
  apply competing_scores_Ret in E. exfalso.
  induction E as [|w l ws ls Hw _ IH]; [easy|].
  destruct Hin as [->|Hin]; [congruence | auto].
Qed.

Lemma SelectorDIC_candidate_log self k : log (SelectorDIC_candidate self k) = [full_fit self k].
Proof.
  unfold SelectorDIC_candidate, GaussianHMM_fit, full_fit.
  unfold bind at 1. unfold log at 1. simpl.
  destruct (fit _ _ _ _) as [m|]; [|reflexivity].
  rewrite SelectorDIC_others_eq. unfold bind, lift, ret, log, result. simpl.
  destruct (score m _ _) as [l|]; [|reflexivity].
  simpl. now destruct (competing_scores self m).
Qed.

(** The criterion of a DIC candidate. *)
Lemma SelectorDIC_candidate_result self k :
  result (SelectorDIC_candidate self k)
  = match fit self.(X) self.(lengths) k self.(random_state) with
    | Ret m =>
        match score m self.(X) self.(lengths), competing_scores self m with
        | Ret logL, Ret sum_logL => Ret ((logL - np_average sum_logL)%float, m)
        | _, _ => Exn
        end
    | Exn => Exn
    end.
Proof.
  unfold SelectorDIC_candidate, GaussianHMM_fit.
  unfold bind at 1. unfold result at 1. simpl.
  destruct (fit _ _ _ _) as [m|]; [|reflexivity].
  rewrite SelectorDIC_others_eq. unfold bind, lift, ret, log, result. simpl.
  destruct (score m _ _) as [l|]; [|reflexivity].
  simpl. now destruct (competing_scores self m).
Qed.
End Candidates.

(** ** The folds of cross-validation *)

Lemma fold_sizes_sum_from q r a k :
  list_sum (map (fun i => q + (if i <? r then 1 else 0)) (seq a k))
  = k * q + (Nat.min (a + k) r - Nat.min a r).
Proof.
  revert a. induction k as [|k IH]; intros a; simpl.
  - rewrite Nat.add_0_r. lia.
  - rewrite IH. destruct (Nat.ltb_spec a r); lia.
Qed.

Lemma fold_sizes_sum n_splits n_samples :
  0 < n_splits -> list_sum (fold_sizes n_splits n_samples) = n_samples.
Proof.
  intros Hk. unfold fold_sizes. rewrite fold_sizes_sum_from.
  pose proof (Nat.mod_upper_bound n_samples n_splits ltac:(lia)) as Hr.
  pose proof (Nat.div_mod_eq n_samples n_splits) as Hd.
  simpl. lia.
Qed.

Lemma fold_sizes_length n_splits n_samples : length (fold_sizes n_splits n_samples) = n_splits.
Proof. unfold fold_sizes. now rewrite length_map, length_seq. Qed.

Lemma fold_sizes_pos n_splits n_samples fold_size :
  0 < n_splits <= n_samples -> In fold_size (fold_sizes n_splits n_samples) -> 1 <= fold_size.
Proof.
  intros Hk Hin. unfold fold_sizes in Hin. apply in_map_iff in Hin as (i & <- & _).
  assert (1 <= n_samples / n_splits) by (apply Nat.div_le_lower_bound; lia).
  lia.
Qed.

Lemma fold_bounds_length sizes current : length (fold_bounds sizes current) = length sizes.
Proof. revert current. induction sizes; intros; simpl; auto. Qed.

Lemma fold_bounds_In sizes current start stop :
  In (start, stop) (fold_bounds sizes current) ->
  current <= start /\ stop <= current + list_sum sizes /\
  exists fold_size, In fold_size sizes /\ stop = start + fold_size.
Proof.
  revert current. induction sizes as [|sz sizes IH]; intros current; simpl; [easy|].
  intros [E|Hin].
  - injection E as <- <-. split; [lia|]. split; [lia|]. exists sz. auto.
  - destruct (IH _ Hin) as (H1 & H2 & fs & Hfs & ->).
    split; [lia|]. split; [lia|]. exists fs. auto.
Qed.

(** The held-out blocks of consecutive folds tile the indices. *)
Lemma fold_bounds_tile sizes current :
  concat (map (fun '(start, stop) => seq start (stop - start)) (fold_bounds sizes current))
  = seq current (list_sum sizes).
Proof.
  revert current. induction sizes as [|sz sizes IH]; intros current; simpl; [reflexivity|].
  rewrite IH, seq_app. f_equal. f_equal. lia.
Qed.

(** What [KFold.split] yields when it accepts the request. *)
Lemma KFold_split_spec n_splits n_samples folds :
  (1 <= n_splits)%Z ->
  KFold_split n_splits n_samples = Ret folds ->
  length folds = Z.to_nat n_splits /\
  concat (map snd folds) = seq 0 n_samples /\
  forall train test, In (train, test) folds ->
    test <> [] /\
    (forall i, In i test -> i < n_samples /\ ~ In i train) /\
    (forall i, In i train <-> i < n_samples /\ ~ In i test).
Proof.
  intros Hk. unfold KFold_split.
  destruct (Nat.ltb_spec n_samples (Z.to_nat n_splits)) as [|Hle]; [discriminate|].
  intros E. injection E as <-.
  set (k := Z.to_nat n_splits) in *. assert (Hk' : 0 < k) by lia.
  split; [now rewrite length_map, fold_bounds_length, fold_sizes_length|].
  split.
  - rewrite map_map.
    rewrite <- (fold_sizes_sum k n_samples Hk') at 2.
    rewrite <- fold_bounds_tile. f_equal. apply map_ext. now intros [start stop].
  - intros train test Hin. apply in_map_iff in Hin as ([start stop] & E & Hin).
    injection E as <- <-.
    apply fold_bounds_In in Hin as (H1 & H2 & fs & Hfs & ->).
    rewrite fold_sizes_sum in H2 by exact Hk'.
    apply fold_sizes_pos in Hfs; [|lia].
    replace (start + fs - start) with fs by lia.
    assert (Hblock : forall i, In i (seq start fs) <-> start <= i < start + fs)
      by (intros i; rewrite in_seq; lia).
    assert (Htrain : forall i,
               In i (filter (fun i => negb ((start <=? i) && (i <? start + fs))) (seq 0 n_samples))
               <-> i < n_samples /\ ~ start <= i < start + fs).
    { intros i. rewrite filter_In, in_seq, negb_true_iff, andb_false_iff,
        Nat.leb_gt, Nat.ltb_ge. lia. }
    split; [destruct fs; [lia | discriminate]|].
    split; intros i.
    + rewrite Hblock, Htrain. lia.
    + rewrite Hblock, Htrain. lia.
Qed.

Lemma combine_sequences_whole sequences idxs :
  (forall i, In i idxs -> i < length sequences) ->
  combine_sequences idxs sequences
  = Ret (concat (map (fun i => nth i sequences []) idxs),
         map (fun i => len (nth i sequences [])) idxs).
Proof.
  induction idxs as [|i idxs IH]; intros Hall; simpl; [reflexivity|].
  rewrite IH by (intros j Hj; apply Hall; now right).
  destruct (nth_error sequences i) as [s|] eqn:E.
  - now rewrite (nth_error_nth _ _ _ E).
  - apply nth_error_None in E. specialize (Hall i (or_introl eq_refl)). lia.
Qed.

(** ** The candidates of cross-validation *)

Lemma last_cons_default {A} (l : list A) (a d : A) : last (a :: l) d = last l a.
Proof.
  revert a d. induction l as [|b l IH]; intros a d; [reflexivity|].
  change (last (a :: b :: l) d) with (last (b :: l) d).
  now rewrite !IH.
Qed.

Section CVCandidates.
Context {B : Backend}.
Implicit Type self : ModelSelector.

Lemma SelectorCV_fold_result self k fold :
  result (SelectorCV_fold self k fold) = fold_outcome self k fold.
Proof.
  destruct fold as [train test].
  unfold SelectorCV_fold, fold_outcome, GaussianHMM_fit, bind, lift, ret, log, result. simpl.
  destruct (combine_sequences train _) as [[tn tl]|]; [|reflexivity]. simpl.
  destruct (combine_sequences test _) as [[sn sl]|]; [|reflexivity]. simpl.
  destruct (fit _ _ _ _) as [m|]; [|reflexivity]. simpl.
  now destruct (score m _ _).
Qed.

Lemma SelectorCV_fold_log self k fold :
  log (SelectorCV_fold self k fold)
  = match combine_sequences (fst fold) self.(sequences),
          combine_sequences (snd fold) self.(sequences) with
    | Ret (train_n, train_len), Ret _ => [mkFitCall train_n train_len k self.(random_state)]
    | _, _ => []
    end.
Proof.
  destruct fold as [train test].
  unfold SelectorCV_fold, GaussianHMM_fit, bind, lift, ret, log, result. simpl.
  destruct (combine_sequences train _) as [[tn tl]|]; [|reflexivity]. simpl.
  destruct (combine_sequences test _) as [[sn sl]|]; [|reflexivity]. simpl.
  destruct (fit _ _ _ _) as [m|]; [|reflexivity]. simpl.
  now destruct (score m _ _).
Qed.

Lemma fold_body_result self k fold logL cm :
  result (fold_body self k fold (logL, cm))
  = match fold_outcome self k fold with
    | Ret (m, l) => Ret (logL ++ [l], Some m)
    | Exn => Exn
    end.
Proof.
  unfold fold_body. rewrite result_bind, SelectorCV_fold_result.
  now destruct (fold_outcome self k fold) as [[m l]|].
Qed.

Lemma fold_body_log self k fold logL cm :
  log (fold_body self k fold (logL, cm)) = log (SelectorCV_fold self k fold).
Proof.
  unfold fold_body. rewrite log_bind, SelectorCV_fold_result.
  destruct (fold_outcome self k fold) as [[m l]|]; simpl; now rewrite app_nil_r.
Qed.

Lemma fold_loop_result self k folds logL cm :
  result (for_each folds (fold_body self k) (logL, cm))
  = match fold_outcomes self k folds with
    | Ret outs => Ret (logL ++ map snd outs, last (map (fun o => Some (fst o)) outs) cm)
    | Exn => Exn
    end.
Proof.
  revert logL cm. induction folds as [|fold folds IH]; intros logL cm.
  - simpl. now rewrite app_nil_r.
  - cbn [for_each fold_outcomes fold_right]. rewrite result_bind, fold_body_result.
    destruct (fold_outcome self k fold) as [[m l]|]; [|reflexivity].
    rewrite IH. fold (fold_outcomes self k folds).
    destruct (fold_outcomes self k folds) as [outs|]; [|reflexivity].
    cbn [map snd fst]. rewrite <- app_assoc. f_equal. f_equal.
    symmetry. apply last_cons_default.
Qed.


Lemma fold_loop_log_head self k fold folds st c :
  In c (log (SelectorCV_fold self k fold)) ->
  In c (log (for_each (fold :: folds) (fold_body self k) st)).
Proof.
  destruct st as [logL cm]. intros Hin.
  cbn [for_each]. rewrite log_bind, fold_body_log. apply in_or_app. now left.
Qed.

Lemma SelectorCV_candidate_unfold self k :
  SelectorCV_candidate self k
  = (folds <- lift (SelectorCV_folds self) ;;
     '(logL, current_model) <- for_each folds (fold_body self k) ([], None) ;;
     let current_score := np_average logL in
     current_model <- lift (match current_model with
                            | Some m => Ret m
                            | None => Exn
                            end) ;;
     ret (current_score, current_model)).
Proof. reflexivity. Qed.

(** The criterion of a CV candidate: every fold succeeded, the score is
    the mean of the held-out scores and the model is the last fold's. *)
Lemma SelectorCV_candidate_result self k :
  result (SelectorCV_candidate self k)
  = match SelectorCV_folds self with
    | Ret folds =>
        match fold_outcomes self k folds with
        | Ret outs =>
            match last (map (fun o => Some (fst o)) outs) None with
            | Some m => Ret (np_average (map snd outs), m)
            | None => Exn
            end
        | Exn => Exn
        end
    | Exn => Exn
    end.
Proof.
  rewrite SelectorCV_candidate_unfold.
  destruct (SelectorCV_folds self) as [folds|]; [|reflexivity].
  rewrite bind_lift_Ret, result_bind, fold_loop_result.
  destruct (fold_outcomes self k folds) as [outs|]; [|reflexivity].
  cbn [app]. now destruct (last _ None).
Qed.


Lemma SelectorCV_candidate_log_head self k fold folds c :
  SelectorCV_folds self = Ret (fold :: folds) ->
  In c (log (SelectorCV_fold self k fold)) ->
  In c (log (SelectorCV_candidate self k)).
Proof.
  intros E Hin. rewrite SelectorCV_candidate_unfold, E, bind_lift_Ret, log_bind.
  apply in_or_app. left. now apply fold_loop_log_head.
Qed.

Lemma SelectorCV_candidate_no_folds self k :
  SelectorCV_folds self = Exn -> SelectorCV_candidate self k = ([], Exn).
Proof. intros E. now rewrite SelectorCV_candidate_unfold, E. Qed.
End CVCandidates.




(** ** The criterion selectors *)

Section SelectorClaims.
Context {B : Backend}.
Implicit Type self : ModelSelector.

(** Lower is better: the loop of BIC. *)
Lemma lowest_in_range (cand : Z -> M (float * Model)) lo hi s0 m0 :
  let c := outcome_of cand in
  let final := fold_left (keep_best lower c) (range lo (hi + 1)) (s0, m0) in
  (final = (s0, m0) /\
   forall k s m, (lo <= k <= hi)%Z -> c k = Ret (s, m) -> lower s s0 = false)
  \/
  (exists k s m,
      first_best lower lower_eq c lo hi k s m /\ lower s s0 = true /\ final = (s, Some m)).
Proof.
  apply (keep_best_range lower cand lower_eq); unfold lower, lower_eq.
  - apply FloatOrder.ltb_irrefl.
  - apply FloatOrder.ltb_trans.
  - apply FloatOrder.leb_ltb_trans.
  - apply FloatOrder.ltb_leb.
Qed.

(** Higher is better: the loops of DIC and CV. *)
Lemma highest_in_range (cand : Z -> M (float * Model)) lo hi s0 m0 :
  let c := outcome_of cand in
  let final := fold_left (keep_best higher c) (range lo (hi + 1)) (s0, m0) in
  (final = (s0, m0) /\
   forall k s m, (lo <= k <= hi)%Z -> c k = Ret (s, m) -> higher s s0 = false)
  \/
  (exists k s m,
      first_best higher higher_eq c lo hi k s m /\ higher s s0 = true /\ final = (s, Some m)).
Proof.
  apply (keep_best_range higher cand higher_eq); unfold higher, higher_eq.
  - apply FloatOrder.ltb_irrefl.
  - intros x y z Hxy Hyz. exact (FloatOrder.ltb_trans z y x Hyz Hxy).
  - intros x y z Hxy Hyz. exact (FloatOrder.ltb_leb_trans z y x Hyz Hxy).
  - intros x y. apply FloatOrder.ltb_leb.
Qed.

(** C1. On a corpus whose matrix has a row (an empty matrix makes
    [self.X[0]] raise), a BIC candidate [k] succeeds exactly when its fit
    and its self-score do, with criterion [-2*logL + p*ln(N)] for
    [p = k*k + 2*d*k - 1], [d] the number of features and [N] the number
    of rows.  The running best starts as the constant-topology fallback
    with score [+inf]; [select] returns the first candidate of
    [min_n_components..max_n_components] with the lowest BIC, and the
    fallback when no candidate has a BIC below [+inf]. *)
Theorem SelectorBIC_select_lowest_BIC self :
  match self.(X) with
  | [] => result (SelectorBIC_select self) = Exn
  | row :: _ =>
      let BIC := outcome_of (SelectorBIC_candidate self (len row)) in
      (forall k b m,
          BIC k = Ret (b, m) <->
          exists logL p_float,
            fit self.(X) self.(lengths) k self.(random_state) = Ret m /\
            score m self.(X) self.(lengths) = Ret logL /\
            float_of_int (k * k + 2 * len row * k - 1) = Ret p_float /\
            b = ((-2) * logL + p_float * np_log (len self.(X)))%float) /\
      ((result (SelectorBIC_select self) = Ret (fallback self) /\
        forall k b m,
          (self.(min_n_components) <= k <= self.(max_n_components))%Z ->
          BIC k = Ret (b, m) -> lower b infinity = false)
       \/
       (exists k b m,
           first_best lower lower_eq BIC
             self.(min_n_components) self.(max_n_components) k b m /\
           lower b infinity = true /\
           result (SelectorBIC_select self) = Ret (Some m)))
  end.
Proof.
  destruct (X self) as [|row rows] eqn:EX.
  - now apply SelectorBIC_select_empty.
  - intros BIC. split.
    + intros k b m. unfold BIC, outcome_of. rewrite SelectorBIC_candidate_result. now rewrite EX.
    + rewrite (SelectorBIC_select_result self row rows EX). unfold topologies.
      destruct (lowest_in_range (SelectorBIC_candidate self (len row))
                  self.(min_n_components) self.(max_n_components) infinity (fallback self))
        as [[E Hall] | (k & b & m & Hbest & Hlt & E)].
      * left. split; [now rewrite E | exact Hall].
      * right. exists k, b, m. split; [exact Hbest|]. split; [exact Hlt | now rewrite E].
Qed.

(** C2, as the code has it.  When the score of a fitted candidate on one
    competing word raises (or the word has no entry in [hwords]), the
    whole candidate is abandoned: it has no DIC, and [select] returns what
    it would return were that topology not in the range.  The other
    topologies are still evaluated. *)
Theorem SelectorDIC_competing_failure_drops_candidate self k m word :
  fit self.(X) self.(lengths) k self.(random_state) = Ret m ->
  In word (competing self) ->
  competing_score self m word = Exn ->
  result (SelectorDIC_candidate self k) = Exn /\
  forall l1 l2,
    topologies self = l1 ++ k :: l2 ->
    result (SelectorDIC_select self)
    = Ret (snd (fold_left
                  (keep_best higher (outcome_of (SelectorDIC_candidate self)))
                  (l1 ++ l2) (neg_infinity, fallback self))).
Proof.
  intros Hfit Hin Hfail.
  assert (E : result (SelectorDIC_candidate self k) = Exn).
  { rewrite SelectorDIC_candidate_result, Hfit.
    rewrite (competing_scores_Exn self m word Hin Hfail).
    now destruct (score m _ _). }
  split; [exact E|]. intros l1 l2 Hks.
  rewrite SelectorDIC_select_result.
  rewrite Hks.
  now rewrite (keep_best_skip higher (SelectorDIC_candidate self) l1 k l2 _ E).
Qed.

Lemma SelectorCV_folds_Ret self folds :
  SelectorCV_folds self = Ret folds ->
  splittable self /\
  KFold_split (Z.min 3 (len self.(lengths))) (length self.(sequences)) = Ret folds.
Proof.
  unfold SelectorCV_folds, KFold, splittable.
  destruct (Z.leb_spec (Z.min 3 (len (lengths self))) 1) as [|Hk]; [discriminate|].
  intros E. split; [|exact E]. split; [lia|].
  unfold KFold_split in E.
  destruct (Nat.ltb_spec (length (sequences self)) (Z.to_nat (Z.min 3 (len (lengths self)))));
    [discriminate|].
  unfold len in *. lia.
Qed.

Lemma SelectorCV_folds_splittable self :
  splittable self -> exists folds, SelectorCV_folds self = Ret folds.
Proof.
  intros [H2 Hn]. unfold SelectorCV_folds, KFold.
  destruct (Z.leb_spec (Z.min 3 (len (lengths self))) 1) as [|Hk]; [lia|].
  unfold KFold_split.
  destruct (Nat.ltb_spec (length (sequences self)) (Z.to_nat (Z.min 3 (len (lengths self)))))
    as [Hlt|]; [unfold len in *; lia | eauto].
Qed.

Lemma SelectorCV_folds_not_splittable self :
  ~ splittable self -> SelectorCV_folds self = Exn.
Proof.
  intros Hn. destruct (SelectorCV_folds self) as [folds|] eqn:E; [|reflexivity].
  now apply SelectorCV_folds_Ret in E.
Qed.

(** The folds [SelectorCV_folds] yields: at least two, each holding out a
    non-empty block of sequences and training on all the others, and
    both index lists within the corpus. *)
Lemma SelectorCV_folds_spec self folds :
  SelectorCV_folds self = Ret folds ->
  length folds = Z.to_nat (Z.min 3 (len self.(lengths))) /\
  concat (map snd folds) = seq 0 (length self.(sequences)) /\
  forall train test, In (train, test) folds ->
    test <> [] /\
    (forall i, In i test -> i < length self.(sequences) /\ ~ In i train) /\
    (forall i, In i train <-> i < length self.(sequences) /\ ~ In i test).
Proof.
  intros E. apply SelectorCV_folds_Ret in E as [[H2 Hn] E].
  apply KFold_split_spec in E; [exact E | lia].
Qed.

(** The fold loop of a candidate runs at least twice: [current_model] is
    bound when it is read. *)
Lemma SelectorCV_folds_nonempty self folds :
  SelectorCV_folds self = Ret folds -> 2 <= length folds.
Proof.
  intros E. destruct (SelectorCV_folds_spec self folds E) as (Hlen & _).
  apply SelectorCV_folds_Ret in E as [[H2 _] _]. lia.
Qed.

Lemma fold_outcomes_Ret self k folds outs :
  fold_outcomes self k folds = Ret outs <->
  Forall2 (fun fold o => fold_outcome self k fold = Ret o) folds outs.
Proof.
  unfold fold_outcomes. revert outs.
  induction folds as [|f fs IH]; intros outs; simpl.
  - split; [intros E; injection E as <-; constructor | intros H; now inversion H].
  - destruct (fold_outcome self k f) as [o|] eqn:Eo.
    + destruct (fold_right _ _ fs) as [os|].
      * split.
        -- intros E. injection E as <-. constructor; [exact Eo | now apply IH].
        -- intros H. inversion H as [|? o' ? os' Eo' Hos]; subst.
           rewrite Eo in Eo'. injection Eo' as <-.
           apply IH in Hos. now injection Hos as <-.
      * split; [discriminate|]. intros H. inversion H as [|? o' ? os' Eo' Hos]; subst.
        now apply IH in Hos.
    + split; [now destruct (fold_right _ _ fs) | ].
      intros H. inversion H as [|? o' ? os' Eo' Hos]; subst. congruence.
Qed.

Lemma fold_outcomes_Exn self k folds fold :
  In fold folds -> fold_outcome self k fold = Exn -> fold_outcomes self k folds = Exn.
Proof.
  intros Hin Hfail. destruct (fold_outcomes self k folds) as [outs|] eqn:E; [|reflexivity].
  apply fold_outcomes_Ret in E. exfalso.
  induction E as [|f o fs os Hf _ IH]; [easy|].
  destruct Hin as [->|Hin]; [congruence | auto].
Qed.


Lemma last_model_bound (outs : list (Model * float)) (d : option Model) :
  (exists m, d = Some m) ->
  exists m, last (map (fun o => Some (fst o)) outs) d = Some m.
Proof.
  revert d. induction outs as [|o outs IH]; intros d Hd; [exact Hd|].
  cbn [map]. rewrite last_cons_default. apply IH. eauto.
Qed.

(** The outcome of a CV candidate, from the outcomes of its folds. *)
Lemma SelectorCV_candidate_iff self k s m :
  outcome_of (SelectorCV_candidate self) k = Ret (s, m) <->
  exists folds outs,
    SelectorCV_folds self = Ret folds /\
    Forall2 (fun fold o => fold_outcome self k fold = Ret o) folds outs /\
    s = np_average (map snd outs) /\
    last (map (fun o => Some (fst o)) outs) None = Some m.
Proof.
  unfold outcome_of. rewrite SelectorCV_candidate_result. split.
  - destruct (SelectorCV_folds self) as [folds|]; [|discriminate].
    destruct (fold_outcomes self k folds) as [outs|] eqn:Eouts; [|discriminate].
    destruct (last _ None) as [m'|] eqn:El; [|discriminate].
    intros E. injection E as <- <-. exists folds, outs.
    split; [reflexivity|]. split; [now apply fold_outcomes_Ret|]. split; [reflexivity | exact El].
  - intros (folds & outs & -> & Hall & -> & El).
    apply fold_outcomes_Ret in Hall. now rewrite Hall, El.
Qed.

(** A candidate whose folds all succeed has a score: the mean of the
    held-out scores. *)
Lemma SelectorCV_candidate_succeeds self k folds outs :
  SelectorCV_folds self = Ret folds ->
  Forall2 (fun fold o => fold_outcome self k fold = Ret o) folds outs ->
  exists m,
    outcome_of (SelectorCV_candidate self) k = Ret (np_average (map snd outs), m) /\
    last (map (fun o => Some (fst o)) outs) None = Some m.
Proof.
  intros Efolds Hall.
  pose proof (SelectorCV_folds_nonempty self folds Efolds) as Hlen.
  rewrite (Forall2_length Hall) in Hlen.
  destruct outs as [|o outs]; [simpl in Hlen; lia|].
  destruct (last_model_bound outs (Some (fst o)) ltac:(eauto)) as [m Em].
  exists m.
  assert (El : last (map (fun o => Some (fst o)) (o :: outs)) None = Some m)
    by (cbn [map]; now rewrite last_cons_default).
  split; [|exact El]. apply SelectorCV_candidate_iff. exists folds, (o :: outs). auto.
Qed.

(** C5. In [SelectorCV.select], a fold whose fit or score raises (or
    whose sequences cannot be combined) disqualifies the topology: the
    candidate has no score, nothing of its partial mean is kept, and
    [select] returns what it would return were that topology not in the
    range.  A candidate has a score exactly when every fold of the corpus
    succeeded for it: the score is then the mean of all the held-out
    scores, and its model the one of the last fold.  [select] returns the
    first candidate with the highest mean, and the fallback when no mean
    exceeds [-inf]. *)
Theorem SelectorCV_fold_failure_disqualifies self k :
  let CV := outcome_of (SelectorCV_candidate self) in
  (forall folds fold,
      SelectorCV_folds self = Ret folds -> In fold folds ->
      fold_outcome self k fold = Exn -> CV k = Exn) /\
  (CV k = Exn ->
   forall l1 l2,
     topologies self = l1 ++ k :: l2 ->
     result (SelectorCV_select self)
     = Ret (snd (fold_left (keep_best higher CV) (l1 ++ l2) (neg_infinity, fallback self)))) /\
  (forall s m,
      CV k = Ret (s, m) <->
      exists folds outs,
        SelectorCV_folds self = Ret folds /\
        Forall2 (fun fold o => fold_outcome self k fold = Ret o) folds outs /\
        s = np_average (map snd outs) /\
        last (map (fun o => Some (fst o)) outs) None = Some m) /\
  (forall folds outs,
      SelectorCV_folds self = Ret folds ->
      Forall2 (fun fold o => fold_outcome self k fold = Ret o) folds outs ->
      exists m, CV k = Ret (np_average (map snd outs), m)) /\
  ((result (SelectorCV_select self) = Ret (fallback self) /\
    forall k' s m,
      (self.(min_n_components) <= k' <= self.(max_n_components))%Z ->
      CV k' = Ret (s, m) -> higher s neg_infinity = false)
   \/
   (exists k' s m,
       first_best higher higher_eq CV self.(min_n_components) self.(max_n_components) k' s m /\
       higher s neg_infinity = true /\
       result (SelectorCV_select self) = Ret (Some m))).
Proof.
  intros CV. split; [|split; [|split; [|split]]].
  - intros folds fold Efolds Hin Hfail. unfold CV, outcome_of.
    rewrite SelectorCV_candidate_result, Efolds.
    now rewrite (fold_outcomes_Exn self k folds fold Hin Hfail).
  - intros E l1 l2 Hks. rewrite SelectorCV_select_result, Hks.
    now rewrite (keep_best_skip higher (SelectorCV_candidate self) l1 k l2 _ E).
  - intros s m. apply SelectorCV_candidate_iff.
  - intros folds outs Efolds Hall.
    destruct (SelectorCV_candidate_succeeds self k folds outs Efolds Hall) as (m & E & _).
    exists m. exact E.
  - rewrite SelectorCV_select_result. unfold topologies.
    destruct (highest_in_range (SelectorCV_candidate self)
                self.(min_n_components) self.(max_n_components) neg_infinity (fallback self))
      as [[E Hall] | (k' & s & m & Hbest & Hgt & E)].
    + left. split; [now rewrite E | exact Hall].
    + right. exists k', s, m. split; [exact Hbest|]. split; [exact Hgt | now rewrite E].
Qed.

Lemma flat_map_singletons {A C : Type} (f : A -> list C) (g : A -> C) (l : list A) :
  (forall a, In a l -> f a = [g a]) -> flat_map f l = map g l.
Proof.
  induction l as [|a l IH]; intros H; simpl; [reflexivity|].
  rewrite (H a) by now left. simpl. f_equal. apply IH. intros a' Ha'. apply H. now right.
Qed.

Lemma flat_map_nils {A C : Type} (f : A -> list C) (l : list A) :
  (forall a, In a l -> f a = []) -> flat_map f l = [].
Proof.
  induction l as [|a l IH]; intros H; simpl; [reflexivity|].
  rewrite (H a) by now left. apply IH. intros a' Ha'. apply H. now right.
Qed.

(** The evaluation of a CV candidate starts with a fit on the training
    sequences of the first fold. *)
Lemma SelectorCV_first_fold_fit self k :
  splittable self ->
  exists train test folds train_n train_len later,
    SelectorCV_folds self = Ret ((train, test) :: folds) /\
    combine_sequences train self.(sequences) = Ret (train_n, train_len) /\
    log (SelectorCV_candidate self k)
    = mkFitCall train_n train_len k self.(random_state) :: later.
Proof.
  intros Hs. destruct (SelectorCV_folds_splittable self Hs) as [folds Efolds].
  destruct (SelectorCV_folds_spec self folds Efolds) as (Hlen & _ & Hfolds).
  destruct Hs as [H2 Hn].
  destruct folds as [|[train test] folds]; [simpl in Hlen; lia|].
  destruct (Hfolds train test (or_introl eq_refl)) as (_ & Htest & Htrain).
  pose proof (combine_sequences_whole self.(sequences) train
                (fun i Hi => proj1 (proj1 (Htrain i) Hi))) as Etrain.
  pose proof (combine_sequences_whole self.(sequences) test
                (fun i Hi => proj1 (Htest i Hi))) as Etest.
  exists train, test, folds. eexists. eexists. eexists.
  split; [exact Efolds|]. split; [exact Etrain|].
  rewrite SelectorCV_candidate_unfold, Efolds, bind_lift_Ret, log_bind.
  cbn [for_each]. rewrite log_bind, fold_body_log, SelectorCV_fold_log.
  cbn [fst snd]. rewrite Etrain, Etest. cbn [app]. reflexivity.
Qed.

(** C8, as the code has it.  After the fallback fit at [n_constant], BIC
    (on a matrix with a row) and DIC fit the whole corpus once for every
    topology of [min_n_components..max_n_components], in order.  The fits
    of CV are the fallback's and then those of its candidates, topology
    by topology: when the corpus can be cut into folds, the evaluation of
    every candidate starts with a fit of its topology on the training
    sequences of the first fold; when it cannot, no candidate attempts a
    fit and the fallback fit is the only one.  In all three, when every
    candidate of the range fails, [select] returns the fallback: the model
    fitted at [n_constant], or [None] if that fit raised. *)
Theorem selectors_attempts_and_fallback self :
  let lo := self.(min_n_components) in
  let hi := self.(max_n_components) in
  (forall row rows,
      self.(X) = row :: rows ->
      log (SelectorBIC_select self) = map (full_fit self) (self.(n_constant) :: topologies self) /\
      ((forall k, (lo <= k <= hi)%Z -> result (SelectorBIC_candidate self (len row) k) = Exn) ->
       result (SelectorBIC_select self) = Ret (fallback self))) /\
  (log (SelectorDIC_select self) = map (full_fit self) (self.(n_constant) :: topologies self) /\
   ((forall k, (lo <= k <= hi)%Z -> result (SelectorDIC_candidate self k) = Exn) ->
    result (SelectorDIC_select self) = Ret (fallback self))) /\
  (log (SelectorCV_select self)
   = full_fit self self.(n_constant)
     :: flat_map (fun k => log (SelectorCV_candidate self k)) (range lo (hi + 1)) /\
   (splittable self ->
    forall k,
    exists train test folds train_n train_len later,
      SelectorCV_folds self = Ret ((train, test) :: folds) /\
      combine_sequences train self.(sequences) = Ret (train_n, train_len) /\
      log (SelectorCV_candidate self k)
      = mkFitCall train_n train_len k self.(random_state) :: later) /\
   (~ splittable self ->
    (forall k, log (SelectorCV_candidate self k) = []) /\
    log (SelectorCV_select self) = [full_fit self self.(n_constant)]) /\
   ((forall k, (lo <= k <= hi)%Z -> result (SelectorCV_candidate self k) = Exn) ->
    result (SelectorCV_select self) = Ret (fallback self))).
Proof.
  intros lo hi.
  assert (Hrange : forall k, In k (topologies self) -> (lo <= k <= hi)%Z)
    by (intros k Hk; apply range_In in Hk; subst lo hi; lia).
  split; [|split; [|split; [|split; [|split]]]].
  - intros row rows EX. split.
    + rewrite (SelectorBIC_select_log self row rows EX). simpl. f_equal.
      apply flat_map_singletons. intros k _. apply SelectorBIC_candidate_log.
    + intros Hall. rewrite (SelectorBIC_select_result self row rows EX).
      rewrite (keep_best_all_fail lower (SelectorBIC_candidate self (len row))); [reflexivity|].
      intros k Hk. apply Hall, Hrange, Hk.
  - split.
    + rewrite SelectorDIC_select_log. simpl. f_equal.
      apply flat_map_singletons. intros k _. apply SelectorDIC_candidate_log.
    + intros Hall. rewrite SelectorDIC_select_result.
      rewrite (keep_best_all_fail higher (SelectorDIC_candidate self)); [reflexivity|].
      intros k Hk. apply Hall, Hrange, Hk.
  - apply SelectorCV_select_log.
  - intros Hs k. apply SelectorCV_first_fold_fit, Hs.
  - intros Hn.
    assert (Hnone : forall k, log (SelectorCV_candidate self k) = [])
      by (intros k;
          now rewrite (SelectorCV_candidate_no_folds self k
                         (SelectorCV_folds_not_splittable self Hn))).
    split; [exact Hnone|]. rewrite SelectorCV_select_log. f_equal.
    apply flat_map_nils. intros k _. apply Hnone.
  - intros Hall. rewrite SelectorCV_select_result.
    rewrite (keep_best_all_fail higher (SelectorCV_candidate self)); [reflexivity|].
    intros k Hk. apply Hall, Hrange, Hk.
Qed.

(** C4, as the code has it.  On a corpus with one length per sequence
    and at least two sequences, [SelectorCV.select] cuts the sequences
    into exactly [min(3, number of sequences)] folds; every sequence is
    held out in exactly one fold, no held-out block is empty, a fold
    trains on exactly the sequences it does not hold out, and the two
    matrices of a fold are concatenations of whole sequences.  With
    fewer than two sequences [KFold] refuses the split: there is no fold
    and every candidate fails before any fit. *)
Theorem SelectorCV_folds_count self :
  length self.(lengths) = length self.(sequences) ->
  let n := length self.(sequences) in
  (2 <= n ->
   exists folds,
     SelectorCV_folds self = Ret folds /\
     length folds = Nat.min 3 n /\
     concat (map snd folds) = seq 0 n /\
     forall train test, In (train, test) folds ->
       test <> [] /\
       (forall i, In i train <-> i < n /\ ~ In i test) /\
       combine_sequences train self.(sequences)
       = Ret (concat (map (fun i => nth i self.(sequences) []) train),
              map (fun i => len (nth i self.(sequences) [])) train) /\
       combine_sequences test self.(sequences)
       = Ret (concat (map (fun i => nth i self.(sequences) []) test),
              map (fun i => len (nth i self.(sequences) [])) test)) /\
  (n < 2 ->
   SelectorCV_folds self = Exn /\
   forall k, SelectorCV_candidate self k = ([], Exn)).
Proof.
  intros Hlen n. split.
  - intros Hn.
    assert (Hs : splittable self) by (unfold splittable, len; rewrite Hlen; fold n; lia).
    destruct (SelectorCV_folds_splittable self Hs) as [folds Efolds].
    destruct (SelectorCV_folds_spec self folds Efolds) as (Hcount & Htile & Hfolds).
    exists folds. split; [exact Efolds|]. split; [|split; [exact Htile|]].
    + rewrite Hcount. unfold len. rewrite Hlen. fold n. lia.
    + intros train test Hin. destruct (Hfolds train test Hin) as (Hne & Htest & Htrain).
      split; [exact Hne|]. split; [exact Htrain|]. split.
      * apply combine_sequences_whole. intros i Hi. now apply Htrain in Hi.
      * apply combine_sequences_whole. intros i Hi. now apply Htest in Hi.
  - intros Hn.
    assert (Hs : ~ splittable self)
      by (unfold splittable, len; rewrite Hlen; fold n; lia).
    split; [now apply SelectorCV_folds_not_splittable|].
    intros k. apply SelectorCV_candidate_no_folds.
    now apply SelectorCV_folds_not_splittable.
Qed.

End SelectorClaims.

(** ** Dictionaries *)

Module DictFacts.
Import Dict.

Lemma keys_set {V} (d : t V) k v w : In w (keys (set d k v)) <-> In w (keys d) \/ w = k.
Proof.
  induction d as [|[k' v'] d IH]; simpl.
  - intuition.
  - destruct (String.eqb_spec k' k) as [->|Hne]; simpl.
    + intuition.
    + rewrite IH. intuition.
Qed.

Lemma get_set {V} (d : t V) k v w :
  get (set d k v) w = if String.eqb k w then Some v else get d w.
Proof.
  induction d as [|[k' v'] d IH]; simpl.
  - reflexivity.
  - destruct (String.eqb_spec k' k) as [->|Hne]; simpl.
    + now destruct (String.eqb k w).
    + rewrite IH. destruct (String.eqb_spec k' w) as [->|]; [|reflexivity].
      destruct (String.eqb_spec k w) as [->|]; [congruence | reflexivity].
Qed.

Lemma get_Some_In {V} (d : t V) w v : get d w = Some v -> In w (keys d).
Proof.
  induction d as [|[k' v'] d IH]; simpl; [discriminate|].
  destruct (String.eqb_spec k' w) as [->|]; auto.
Qed.

Lemma In_get_Some {V} (d : t V) w : In w (keys d) -> exists v, get d w = Some v.
Proof.
  induction d as [|[k' v'] d IH]; simpl; [easy|].
  destruct (String.eqb_spec k' w) as [->|Hne]; [eauto|].
  intros [E|Hin]; [congruence | auto].
Qed.
End DictFacts.

(** ** The recognizer *)

Section RecognizerClaims.
Context {B : Backend}.

Local Abbreviation step := scores_step.

Lemma step_set X lengths scores word model :
  step X lengths scores (word, model) = Dict.set scores word (recorded model X lengths).
Proof. unfold scores_step, recorded. now destruct (score model X lengths). Qed.

Lemma scores_keys X lengths models acc w :
  In w (Dict.keys (fold_left (step X lengths) models acc)) <->
  In w (Dict.keys acc) \/ In w (Dict.keys models).
Proof.
  revert acc. induction models as [|[word model] models IH]; intros acc.
  - simpl. intuition.
  - cbn [fold_left]. rewrite IH, step_set, DictFacts.keys_set. simpl. intuition.
Qed.

Lemma scores_get_other X lengths models acc w :
  ~ In w (Dict.keys models) ->
  Dict.get (fold_left (step X lengths) models acc) w = Dict.get acc w.
Proof.
  revert acc. induction models as [|[word model] models IH]; intros acc Hw; [reflexivity|].
  cbn [fold_left]. rewrite IH, step_set, DictFacts.get_set by (simpl in Hw; intuition).
  destruct (String.eqb_spec word w) as [->|]; [|reflexivity].
  exfalso. apply Hw. now left.
Qed.

Lemma scores_get X lengths models acc w model :
  NoDup (Dict.keys models) -> In (w, model) models ->
  Dict.get (fold_left (step X lengths) models acc) w = Some (recorded model X lengths).
Proof.
  revert acc. induction models as [|[word' model'] models IH]; intros acc Hnd Hin; [easy|].
  simpl in Hnd. inversion Hnd as [|? ? Hfresh Hnd']; subst.
  cbn [fold_left]. destruct Hin as [E|Hin].
  - injection E as -> ->. rewrite scores_get_other by exact Hfresh.
    rewrite step_set, DictFacts.get_set. now rewrite String.eqb_refl.
  - now apply IH.
Qed.

(** Every word of the bank, and no other, has an entry in the scores of
    an item. *)
Lemma recognize_scores_keys models X lengths w :
  In w (Dict.keys (recognize_scores models X lengths)) <-> In w (Dict.keys models).
Proof.
  unfold recognize_scores, Dict.items.
  pose proof (scores_keys X lengths models [] w) as H. unfold scores_step in H.
  rewrite H. simpl. intuition.
Qed.

Lemma recognize_scores_get models X lengths w model :
  NoDup (Dict.keys models) -> In (w, model) models ->
  Dict.get (recognize_scores models X lengths) w = Some (recorded model X lengths).
Proof. intros Hnd Hin. exact (scores_get X lengths models [] w model Hnd Hin). Qed.

(** [max] on a non-empty list: the first item of greatest key. *)
Lemma py_max_spec {A} (key : A -> float) (x : A) (l : list A) :
  exists g l1 l2,
    py_max key (x :: l) = Ret g /\
    x :: l = l1 ++ g :: l2 /\
    (forall y, In y (x :: l) -> (key g <? key y)%float = false) /\
    (forall y, In y l1 -> (key g <=? key y)%float = false).
Proof.
  unfold py_max.
  induction l as [|c l IH] using rev_ind.
  - exists x, [], []. simpl. repeat split; [|easy].
    intros y [<-|[]]. apply FloatOrder.ltb_irrefl.
  - destruct IH as (g & l1 & l2 & Eg & El & Hmax & Hfirst).
    injection Eg as Eg. rewrite fold_left_app. cbn [fold_left]. rewrite Eg.
    destruct (key g <? key c)%float eqn:Hlt.
    + exists c, (x :: l), []. split; [reflexivity|]. split; [reflexivity|]. split.
      * intros y Hy. change (x :: l ++ [c]) with ((x :: l) ++ [c]) in Hy.
        apply in_app_or in Hy as [Hy|[<-|[]]]; [|apply FloatOrder.ltb_irrefl].
        destruct (key c <? key y)%float eqn:E; [|reflexivity].
        pose proof (Hmax y Hy) as Hy'.
        now rewrite (FloatOrder.ltb_trans _ _ _ Hlt E) in Hy'.
      * intros y Hy.
        destruct (key c <=? key y)%float eqn:E; [|reflexivity].
        pose proof (Hmax y Hy) as Hy'.
        now rewrite (FloatOrder.ltb_leb_trans _ _ _ Hlt E) in Hy'.
    + exists g, l1, (l2 ++ [c]). split; [reflexivity|]. split.
      * change (x :: l ++ [c]) with ((x :: l) ++ [c]). rewrite El.
        now rewrite <- app_assoc.
      * split; [|exact Hfirst]. intros y Hy.
        change (x :: l ++ [c]) with ((x :: l) ++ [c]) in Hy.
        apply in_app_or in Hy as [Hy|[<-|[]]]; [now apply Hmax | exact Hlt].
Qed.

Lemma recognize_guess_first_max scores guess :
  recognize_guess scores = Ret guess -> first_max scores guess.
Proof.
  unfold recognize_guess. destruct (Dict.keys scores) as [|x l] eqn:Ek; [discriminate|].
  destruct (py_max_spec (fun word => match Dict.get scores word with
                                     | Some l => l
                                     | None => nan
                                     end) x l)
    as (g & l1 & l2 & Eg & El & Hmax & Hfirst).
  rewrite Eg. intros E. injection E as <-.
  assert (Hg : In g (Dict.keys scores)) by (rewrite Ek, El; apply in_elt).
  destruct (DictFacts.In_get_Some scores g Hg) as [s Es].
  exists l1, l2, s. split; [now rewrite Ek|]. split; [exact Es|]. split.
  - intros w s' Ew. specialize (Hmax w). rewrite Es, Ew in Hmax. apply Hmax.
    rewrite <- Ek. eapply DictFacts.get_Some_In, Ew.
  - intros w s' Hw Ew. specialize (Hfirst w Hw). now rewrite Es, Ew in Hfirst.
Qed.

Lemma recognize_guess_In scores guess :
  recognize_guess scores = Ret guess -> In guess (Dict.keys scores).
Proof.
  intros H. destruct (recognize_guess_first_max scores guess H) as (l1 & l2 & s & E & _).
  rewrite E. apply in_elt.
Qed.

Lemma recognize_guess_Exn scores : recognize_guess scores = Exn <-> scores = [].
Proof.
  unfold recognize_guess, py_max, Dict.keys.
  destruct scores as [|[w s] scores]; simpl; split; congruence.
Qed.

Lemma recognize_scores_nil models X lengths :
  recognize_scores models X lengths = [] <-> models = [].
Proof.
  split.
  - intros E. destruct models as [|[w m] models]; [reflexivity|].
    assert (H : In w (Dict.keys (recognize_scores ((w, m) :: models) X lengths)))
      by (apply recognize_scores_keys; now left).
    now rewrite E in H.
  - now intros ->.
Qed.

Lemma recognize_loop_spec models all_Xlengths probabilities guesses :
  match recognize_loop models all_Xlengths probabilities guesses with
  | Ret (probs, gs) =>
      exists rows new_guesses,
        probs = probabilities ++ rows /\ gs = guesses ++ new_guesses /\
        Forall2 (row_of models) all_Xlengths rows /\
        Forall2 (fun scores guess => recognize_guess scores = Ret guess) rows new_guesses
  | Exn => models = [] /\ all_Xlengths <> []
  end.
Proof.
  revert probabilities guesses.
  induction all_Xlengths as [|[i [X lengths]] rest IH]; intros probabilities guesses.
  - simpl. exists [], []. rewrite !app_nil_r. repeat split; constructor.
  - cbn [recognize_loop].
    destruct (recognize_guess (recognize_scores models X lengths)) as [guess|] eqn:Eg.
    + specialize (IH (probabilities ++ [recognize_scores models X lengths])
                     (guesses ++ [guess])).
      destruct (recognize_loop models rest _ _) as [[probs gs]|]; [|split; [apply IH | easy]].
      destruct IH as (rows & new_guesses & -> & -> & Hrows & Hgs).
      exists (recognize_scores models X lengths :: rows), (guess :: new_guesses).
      rewrite <- !app_assoc. repeat split; constructor; auto. reflexivity.
    + apply recognize_guess_Exn, recognize_scores_nil in Eg. now split.
Qed.

(** [recognize] raises exactly on an empty bank with a test item. *)
Lemma recognize_Exn models all_Xlengths :
  recognize models all_Xlengths = Exn <-> models = [] /\ all_Xlengths <> [].
Proof.
  split.
  - intros E. pose proof (recognize_loop_spec models all_Xlengths [] []) as H.
    unfold recognize in E. now rewrite E in H.
  - intros [-> Hne]. destruct all_Xlengths as [|[i [X lengths]] rest]; [easy|reflexivity].
Qed.

Lemma recognize_Ret models all_Xlengths probs gs :
  recognize models all_Xlengths = Ret (probs, gs) ->
  Forall2 (row_of models) all_Xlengths probs /\
  Forall2 (fun scores guess => recognize_guess scores = Ret guess) probs gs.
Proof.
  intros E. pose proof (recognize_loop_spec models all_Xlengths [] []) as H.
  unfold recognize in E. rewrite E in H.
  now destruct H as (rows & new_guesses & -> & -> & H1 & H2).
Qed.

(** C3. For a bank with one model per word, [recognize] raises only on
    an empty bank with a test item, whatever the scorings do: a scoring
    that raises is never passed on.  In the row of every item, a word
    whose scoring raised has the entry [-inf], and a word whose scoring
    returned has that score. *)
Theorem recognize_records_failures models all_Xlengths :
  NoDup (Dict.keys models) ->
  (recognize models all_Xlengths = Exn <-> models = [] /\ all_Xlengths <> []) /\
  forall probabilities guesses,
    recognize models all_Xlengths = Ret (probabilities, guesses) ->
    Forall2
      (fun item scores =>
         forall word model,
           In (word, model) models ->
           (score model (fst (snd item)) (snd (snd item)) = Exn ->
            Dict.get scores word = Some neg_infinity) /\
           (forall l, score model (fst (snd item)) (snd (snd item)) = Ret l ->
                      Dict.get scores word = Some l))
      all_Xlengths probabilities.
Proof.
  intros Hnd. split; [apply recognize_Exn|].
  intros probabilities guesses E. apply recognize_Ret in E as [Hrows _].
  induction Hrows as [|item scores items rows Hrow _ IH]; constructor; [|exact IH].
  intros word model Hin. unfold row_of in Hrow. subst scores.
  rewrite (recognize_scores_get models _ _ word model Hnd Hin). unfold recorded.
  split; [intros -> | intros l ->]; reflexivity.
Qed.

(** C6, as the code has it.  For a bank that is not empty, [recognize]
    returns one row of scores and one guess for each test item, in the
    order of the items: the row at an item's position holds the scores of
    the bank on that item, its keys are exactly the words of the bank,
    and the guess at that position is the guess of that row. *)
Theorem recognize_rows_and_guesses models all_Xlengths :
  models <> [] ->
  exists probabilities guesses,
    recognize models all_Xlengths = Ret (probabilities, guesses) /\
    length probabilities = length all_Xlengths /\
    length guesses = length all_Xlengths /\
    Forall2
      (fun item scores =>
         row_of models item scores /\
         forall word, In word (Dict.keys scores) <-> In word (Dict.keys models))
      all_Xlengths probabilities /\
    Forall2 (fun scores guess => recognize_guess scores = Ret guess) probabilities guesses.
Proof.
  intros Hne. destruct (recognize models all_Xlengths) as [[probs gs]|] eqn:E.
  - exists probs, gs. split; [reflexivity|].
    apply recognize_Ret in E as [Hrows Hgs].
    pose proof (Forall2_length Hrows) as L1. pose proof (Forall2_length Hgs) as L2.
    split; [lia|]. split; [lia|]. split; [|exact Hgs].
    clear Hgs L1 L2. induction Hrows as [|item scores items rows Hrow _ IH];
      constructor; [|exact IH].
    split; [exact Hrow|]. intros word. rewrite Hrow. apply recognize_scores_keys.
  - apply recognize_Exn in E as [E _]. contradiction.
Qed.

(** C7. Every guess [recognize] returns is the first word of greatest
    score in the row of its item: no word of the row has a greater score,
    and no word earlier in the row has a score as great.  ([recognize]
    returns unless the bank is empty and there is a test item.) *)
Theorem recognize_guess_is_first_max models all_Xlengths :
  match recognize models all_Xlengths with
  | Ret (probabilities, guesses) =>
      length guesses = length all_Xlengths /\ Forall2 first_max probabilities guesses
  | Exn => models = [] /\ all_Xlengths <> []
  end.
Proof.
  destruct (recognize models all_Xlengths) as [[probabilities guesses]|] eqn:E.
  - apply recognize_Ret in E as [Hrows Hgs]. split.
    + rewrite <- (Forall2_length Hgs). symmetry. exact (Forall2_length Hrows).
    + clear Hrows. induction Hgs as [|scores guess rows gs Hg _ IH]; constructor; [|exact IH].
      now apply recognize_guess_first_max.
  - now apply recognize_Exn.
Qed.

(** C9, as the code has it.  For a bank that is not empty, whichever
    words it lacks, [recognize] returns its two lists, and no guess is a
    word absent from the bank. *)
Theorem recognize_tolerates_missing_words models all_Xlengths :
  models <> [] ->
  exists probabilities guesses,
    recognize models all_Xlengths = Ret (probabilities, guesses) /\
    forall word, ~ In word (Dict.keys models) -> ~ In word guesses.
Proof.
  intros Hne. destruct (recognize models all_Xlengths) as [[probs gs]|] eqn:E.
  - exists probs, gs. split; [reflexivity|].
    apply recognize_Ret in E as [Hrows Hgs].
    intros word Habsent Hin. apply Habsent. clear Habsent.
    revert all_Xlengths Hrows.
    induction Hgs as [|scores guess rows gs' Hg _ IH]; intros items Hrows; [easy|].
    inversion Hrows as [|item ? items' ? Hrow Hrows']; subst.
    destruct Hin as [->|Hin]; [|exact (IH Hin items' Hrows')].
    apply recognize_guess_In in Hg. unfold row_of in Hrow. rewrite Hrow in Hg.
    now apply recognize_scores_keys in Hg.
  - apply recognize_Exn in E as [E _]. contradiction.
Qed.
End RecognizerClaims.

(** ** Further properties of the selectors *)

Section SelectorExtras.
Context {B : Backend}.
Implicit Type self : ModelSelector.

Lemma M_eq {A} (c d : M A) : log c = log d -> result c = result d -> c = d.
Proof. destruct c, d. simpl. now intros -> ->. Qed.

Lemma topologies_empty self :
  (self.(max_n_components) < self.(min_n_components))%Z -> topologies self = [].
Proof.
  intros H. unfold topologies, range.
  now replace (Z.to_nat (max_n_components self + 1 - min_n_components self)) with 0 by lia.
Qed.

(** X1. [base_model] attempts exactly one fit, on the whole corpus of the
    word, and never raises: it returns the fitted model when the fit
    returns and [None] when the fit raises.  [SelectorConstant.select] is
    [base_model] at [n_constant]. *)
Theorem base_model_never_raises self num_states :
  log (base_model self num_states) = [full_fit self num_states] /\
  (forall m,
      result (base_model self num_states) = Ret (Some m) <->
      fit self.(X) self.(lengths) num_states self.(random_state) = Ret m) /\
  (result (base_model self num_states) = Ret None <->
   fit self.(X) self.(lengths) num_states self.(random_state) = Exn) /\
  result (base_model self num_states) <> Exn /\
  SelectorConstant_select self = ([full_fit self self.(n_constant)], Ret (fallback self)).
Proof.
  split; [apply base_model_log|]. rewrite base_model_result.
  destruct (fit (X self) (lengths self) num_states (random_state self)) as [m'|] eqn:E.
  - split; [intros m; split; congruence|]. split; [split; discriminate|].
    split; [discriminate|]. apply M_eq; [apply base_model_log | apply fallback_result].
  - split; [intros m; split; discriminate|]. split; [split; reflexivity|].
    split; [discriminate|]. apply M_eq; [apply base_model_log | apply fallback_result].
Qed.

Lemma get_None_iff {V} (d : Dict.t V) w : Dict.get d w = None <-> ~ In w (Dict.keys d).
Proof.
  split.
  - intros E Hin. destruct (DictFacts.In_get_Some d w Hin) as [v Ev]. congruence.
  - intros Hn. destruct (Dict.get d w) as [v|] eqn:E; [|reflexivity].
    exfalso. apply Hn. eapply DictFacts.get_Some_In, E.
Qed.

(** X2. [ModelSelector.__init__] raises exactly when the word has no entry
    in one of the two dictionaries; it returns exactly the selector that
    holds the two dictionaries, the word's sequences, matrix and lengths as
    the dictionaries have them, and every parameter as given, [verbose]
    included. *)
Theorem ModelSelector_init_lookup all_word_sequences all_word_Xlengths word
    n_const min_n max_n seed verb :
  let init := ModelSelector_init all_word_sequences all_word_Xlengths word
                n_const min_n max_n seed verb in
  (init = Exn <->
   ~ In word (Dict.keys all_word_sequences) \/ ~ In word (Dict.keys all_word_Xlengths)) /\
  forall self,
    init = Ret self <->
    Dict.get all_word_sequences word = Some self.(sequences) /\
    Dict.get all_word_Xlengths word = Some (self.(X), self.(lengths)) /\
    self.(words) = all_word_sequences /\ self.(hwords) = all_word_Xlengths /\
    self.(this_word) = word /\ self.(n_constant) = n_const /\
    self.(min_n_components) = min_n /\ self.(max_n_components) = max_n /\
    self.(random_state) = seed /\ self.(verbose) = verb.
Proof.
  intros init. subst init. unfold ModelSelector_init, Dict.getitem.
  rewrite <- !get_None_iff. split.
  - destruct (Dict.get all_word_sequences word) as [seqs|];
      destruct (Dict.get all_word_Xlengths word) as [[Xw lw]|];
      (split; [intros E; try discriminate E; auto
              | intros [H|H]; try discriminate H; reflexivity]).
  - intros self. split.
    + destruct (Dict.get all_word_sequences word) as [seqs|];
        destruct (Dict.get all_word_Xlengths word) as [[Xw lw]|];
        intros E; try discriminate E.
      injection E as <-. simpl. repeat split.
    + destruct self as [w h sq Xs ls tw nc lo hi rs vb]. simpl.
      intros (-> & -> & -> & -> & -> & -> & -> & -> & -> & ->). reflexivity.
Qed.

(** X3. A DIC candidate succeeds exactly when its fit, its self-score and
    its score on every other word of [self.words] succeed, with criterion
    [logL - np.average(scores on the other words)], the scores taken in
    the iteration order of the words.  [SelectorDIC.select] returns the
    first candidate of highest DIC, and the fallback when no DIC exceeds
    [-inf]. *)
Theorem SelectorDIC_select_highest_DIC self :
  let DIC := outcome_of (SelectorDIC_candidate self) in
  (forall k d m,
      DIC k = Ret (d, m) <->
      exists logL sum_logL,
        fit self.(X) self.(lengths) k self.(random_state) = Ret m /\
        score m self.(X) self.(lengths) = Ret logL /\
        Forall2 (fun word l => competing_score self m word = Ret l) (competing self) sum_logL /\
        d = (logL - np_average sum_logL)%float) /\
  ((result (SelectorDIC_select self) = Ret (fallback self) /\
    forall k d m,
      (self.(min_n_components) <= k <= self.(max_n_components))%Z ->
      DIC k = Ret (d, m) -> higher d neg_infinity = false)
   \/
   (exists k d m,
       first_best higher higher_eq DIC self.(min_n_components) self.(max_n_components) k d m /\
       higher d neg_infinity = true /\
       result (SelectorDIC_select self) = Ret (Some m))).
Proof.
  intros DIC. split.
  - intros k d m. unfold DIC, outcome_of. rewrite SelectorDIC_candidate_result.
    destruct (fit _ _ _ _) as [m'|].
    + destruct (score m' _ _) as [logL|] eqn:Es.
      * destruct (competing_scores self m') as [ls|] eqn:Ec.
        -- split.
           ++ intros E. injection E as <- <-. exists logL, ls.
              repeat split; auto. now apply competing_scores_Ret.
           ++ intros (logL' & ls' & Em & El & Hls & ->). injection Em as <-.
              rewrite Es in El. injection El as <-.
              apply competing_scores_Ret in Hls. rewrite Ec in Hls. now injection Hls as <-.
        -- split; [discriminate|]. intros (logL' & ls' & Em & _ & Hls & _).
           injection Em as <-. apply competing_scores_Ret in Hls. congruence.
      * split; [discriminate|]. intros (logL' & ls' & Em & El & _).
        injection Em as <-. congruence.
    + split; [discriminate|]. now intros (logL' & ls' & Em & _).
  - rewrite SelectorDIC_select_result. unfold topologies.
    destruct (highest_in_range (SelectorDIC_candidate self)
                self.(min_n_components) self.(max_n_components) neg_infinity (fallback self))
      as [[E Hall] | (k & d & m & Hbest & Hgt & E)].
    + left. split; [now rewrite E | exact Hall].
    + right. exists k, d, m. split; [exact Hbest|]. split; [exact Hgt | now rewrite E].
Qed.

(** X4. [SelectorConstant.select], [SelectorDIC.select] and
    [SelectorCV.select] never raise, whatever the fits and the scorings
    do; [SelectorBIC.select] raises exactly when the matrix of the word has
    no row. *)
Theorem selectors_never_raise self :
  (exists r, result (SelectorConstant_select self) = Ret r) /\
  (exists r, result (SelectorDIC_select self) = Ret r) /\
  (exists r, result (SelectorCV_select self) = Ret r) /\
  (result (SelectorBIC_select self) = Exn <-> self.(X) = []).
Proof.
  split; [eexists; apply fallback_result|].
  split; [eexists; apply SelectorDIC_select_result|].
  split; [eexists; apply SelectorCV_select_result|].
  destruct (X self) as [|row rows] eqn:EX.
  - split; [reflexivity|]. intros _. now apply SelectorBIC_select_empty.
  - rewrite (SelectorBIC_select_result self row rows EX). split; discriminate.
Qed.

(** X5. A model [SelectorBIC.select] or [SelectorDIC.select] returns was
    fitted on the whole corpus of the word, with [n_constant] states or
    with a number of states of [min_n_components..max_n_components]. *)
Theorem whole_corpus_model self m :
  result (SelectorBIC_select self) = Ret (Some m) \/
  result (SelectorDIC_select self) = Ret (Some m) ->
  exists k,
    (k = self.(n_constant) \/ (self.(min_n_components) <= k <= self.(max_n_components))%Z) /\
    fit self.(X) self.(lengths) k self.(random_state) = Ret m.
Proof.
  assert (Hfb : fallback self = Some m ->
                fit self.(X) self.(lengths) self.(n_constant) self.(random_state) = Ret m).
  { unfold fallback. destruct (fit _ _ _ _); congruence. }
  intros [E|E].
  - destruct (X self) as [|row rows] eqn:EX.
    + rewrite (proj1 (SelectorBIC_select_empty self EX)) in E. discriminate.
    + rewrite (SelectorBIC_select_result self row rows EX) in E. unfold topologies in E.
      destruct (lowest_in_range (SelectorBIC_candidate self (len row))
                  self.(min_n_components) self.(max_n_components) infinity (fallback self))
        as [[E' _] | (k & b & m' & (Hk & Ek & _) & _ & E')]; rewrite E' in E; simpl in E.
      * exists self.(n_constant). split; [now left|]. apply Hfb. congruence.
      * exists k. split; [now right|]. injection E as <-.
        unfold outcome_of in Ek. apply SelectorBIC_candidate_result in Ek.
        destruct Ek as (logL & pf & Em & _). now rewrite EX in Em.
  - rewrite SelectorDIC_select_result in E. unfold topologies in E.
    destruct (highest_in_range (SelectorDIC_candidate self)
                self.(min_n_components) self.(max_n_components) neg_infinity (fallback self))
      as [[E' _] | (k & d & m' & (Hk & Ek & _) & _ & E')]; rewrite E' in E; simpl in E.
    + exists self.(n_constant). split; [now left|]. apply Hfb. congruence.
    + exists k. split; [now right|]. injection E as <-.
      unfold outcome_of in Ek. rewrite SelectorDIC_candidate_result in Ek. revert Ek.
      destruct (fit (X self) (lengths self) k (random_state self)) as [m''|];
        [|intros Ek; discriminate Ek].
      destruct (score m'' _ _); [|intros Ek; discriminate Ek].
      destruct (competing_scores self m''); [|intros Ek; discriminate Ek]. congruence.
Qed.

(** X6. A criterion selector returns [None] only when the fallback fit at
    [n_constant] raised. *)
Theorem select_None_only_if_fallback_fails self :
  result (SelectorBIC_select self) = Ret None \/
  result (SelectorDIC_select self) = Ret None \/
  result (SelectorCV_select self) = Ret None ->
  fit self.(X) self.(lengths) self.(n_constant) self.(random_state) = Exn.
Proof.
  assert (Hfb : fallback self = None ->
                fit self.(X) self.(lengths) self.(n_constant) self.(random_state) = Exn).
  { unfold fallback. destruct (fit _ _ _ _); congruence. }
  intros [E|[E|E]].
  - destruct (X self) as [|row rows] eqn:EX.
    + rewrite (proj1 (SelectorBIC_select_empty self EX)) in E. discriminate.
    + rewrite (SelectorBIC_select_result self row rows EX) in E. unfold topologies in E.
      destruct (lowest_in_range (SelectorBIC_candidate self (len row))
                  self.(min_n_components) self.(max_n_components) infinity (fallback self))
        as [[E' _] | (k & b & m' & _ & _ & E')]; rewrite E' in E; simpl in E.
      * apply Hfb. congruence.
      * discriminate.
  - rewrite SelectorDIC_select_result in E. unfold topologies in E.
    destruct (highest_in_range (SelectorDIC_candidate self)
                self.(min_n_components) self.(max_n_components) neg_infinity (fallback self))
      as [[E' _] | (k & d & m' & _ & _ & E')]; rewrite E' in E; simpl in E.
    + apply Hfb. congruence.
    + discriminate.
  - rewrite SelectorCV_select_result in E. unfold topologies in E.
    destruct (highest_in_range (SelectorCV_candidate self)
                self.(min_n_components) self.(max_n_components) neg_infinity (fallback self))
      as [[E' _] | (k & d & m' & _ & _ & E')]; rewrite E' in E; simpl in E.
    + apply Hfb. congruence.
    + discriminate.
Qed.

(** X7. On a corpus that cannot be cut into folds (fewer than two
    lengths, or fewer sequences than splits), [SelectorCV.select] is
    [SelectorConstant.select]: the same single fit and the same result. *)
Theorem SelectorCV_unsplittable_is_constant self :
  ~ splittable self -> SelectorCV_select self = SelectorConstant_select self.
Proof.
  intros Hn. pose proof (SelectorCV_folds_not_splittable self Hn) as Efolds.
  unfold SelectorConstant_select. apply M_eq.
  - rewrite SelectorCV_select_log, base_model_log. f_equal.
    apply flat_map_nils. intros k _. now rewrite (SelectorCV_candidate_no_folds self k Efolds).
  - rewrite SelectorCV_select_result, fallback_result.
    rewrite (keep_best_all_fail higher (SelectorCV_candidate self)); [reflexivity|].
    intros k _. unfold outcome_of. now rewrite (SelectorCV_candidate_no_folds self k Efolds).
Qed.

(** X8. With an empty range of topologies ([max_n_components] below
    [min_n_components]) the criterion selectors are
    [SelectorConstant.select]; for BIC the matrix must have a row. *)
Theorem empty_range_is_constant self :
  (self.(max_n_components) < self.(min_n_components))%Z ->
  SelectorDIC_select self = SelectorConstant_select self /\
  SelectorCV_select self = SelectorConstant_select self /\
  (self.(X) <> [] -> SelectorBIC_select self = SelectorConstant_select self).
Proof.
  intros H. pose proof (topologies_empty self H) as Et. unfold SelectorConstant_select.
  split; [|split].
  - apply M_eq.
    + now rewrite SelectorDIC_select_log, base_model_log, Et.
    + now rewrite SelectorDIC_select_result, fallback_result, Et.
  - apply M_eq.
    + now rewrite SelectorCV_select_log, base_model_log, Et.
    + now rewrite SelectorCV_select_result, fallback_result, Et.
  - intros HX. destruct (X self) as [|row rows] eqn:EX; [contradiction|]. apply M_eq.
    + now rewrite (SelectorBIC_select_log self row rows EX), base_model_log, Et.
    + now rewrite (SelectorBIC_select_result self row rows EX), fallback_result, Et.
Qed.

Lemma sub_nan (y : float) : (y - nan)%float = nan.
Proof.
  rewrite <- (SF2Prim_Prim2SF (y - nan)), sub_spec. unfold SF64sub.
  replace (Prim2SF nan) with S754_nan by reflexivity.
  replace (SFsub prec emax (Prim2SF y) S754_nan) with S754_nan
    by (now destruct (Prim2SF y)).
  reflexivity.
Qed.

Lemma ltb_nan (x : float) : (x <? nan)%float = false.
Proof.
  rewrite ltb_spec. unfold SFltb.
  replace (Prim2SF nan) with S754_nan by reflexivity.
  now destruct (Prim2SF x).
Qed.

(** X9. When the word of the selector is the only word of [self.words]
    and [np.average] of the empty list is NaN (as numpy has it), the DIC
    of every candidate that succeeds is NaN, and [SelectorDIC.select]
    returns the fallback. *)
Theorem SelectorDIC_single_word_returns_fallback self :
  competing self = [] ->
  np_average [] = nan ->
  (forall k d m, outcome_of (SelectorDIC_candidate self) k = Ret (d, m) -> d = nan) /\
  result (SelectorDIC_select self) = Ret (fallback self).
Proof.
  intros Hc Hnan.
  assert (Hdic : forall k d m,
             outcome_of (SelectorDIC_candidate self) k = Ret (d, m) -> d = nan).
  { intros k d m. unfold outcome_of. rewrite SelectorDIC_candidate_result.
    destruct (fit (X self) (lengths self) k (random_state self)) as [m'|];
      [|intros E; discriminate E].
    destruct (score m' _ _) as [logL|]; [|intros E; discriminate E].
    unfold competing_scores. rewrite Hc. simpl. intros E.
    injection E as <- _. rewrite Hnan. apply sub_nan. }
  split; [exact Hdic|].
  rewrite SelectorDIC_select_result. unfold topologies.
  destruct (highest_in_range (SelectorDIC_candidate self)
              self.(min_n_components) self.(max_n_components) neg_infinity (fallback self))
    as [[E _] | (k & d & m & (_ & Ek & _) & Hgt & _)]; [now rewrite E|].
  exfalso. rewrite (Hdic k d m Ek) in Hgt. unfold higher in Hgt.
  now rewrite ltb_nan in Hgt.
Qed.

Lemma fold_loop_log_all self k folds outs st :
  fold_outcomes self k folds = Ret outs ->
  Forall2 (fun fold c =>
             exists train_n train_len,
               combine_sequences (fst fold) self.(sequences) = Ret (train_n, train_len) /\
               c = mkFitCall train_n train_len k self.(random_state))
          folds (log (for_each folds (fold_body self k) st)).
Proof.
  revert outs st. induction folds as [|fold folds IH]; intros outs [logL cm] E.
  - constructor.
  - cbn [fold_outcomes fold_right] in E. fold (fold_outcomes self k folds) in E.
    destruct (fold_outcome self k fold) as [[m l]|] eqn:Ef; [|discriminate].
    destruct (fold_outcomes self k folds) as [os|] eqn:Eo; [|discriminate].
    cbn [for_each]. rewrite log_bind, fold_body_log, fold_body_result, Ef.
    rewrite SelectorCV_fold_log. unfold fold_outcome in Ef.
    destruct (combine_sequences (fst fold) _) as [[tn tl]|] eqn:Et; [|discriminate].
    destruct (combine_sequences (snd fold) _) as [[sn sl]|]; [|discriminate].
    simpl. constructor; [exists tn, tl; split; [exact Et | reflexivity] | exact (IH os _ eq_refl)].
Qed.

(** X10. A CV candidate that succeeds attempted exactly one fit per fold,
    in the order of the folds, each with the candidate's number of states
    on the training sequences of its fold. *)
Theorem SelectorCV_candidate_one_fit_per_fold self k s m :
  outcome_of (SelectorCV_candidate self) k = Ret (s, m) ->
  exists folds,
    SelectorCV_folds self = Ret folds /\
    Forall2 (fun fold c =>
               exists train_n train_len,
                 combine_sequences (fst fold) self.(sequences) = Ret (train_n, train_len) /\
                 c = mkFitCall train_n train_len k self.(random_state))
            folds (log (SelectorCV_candidate self k)).
Proof.
  unfold outcome_of. rewrite SelectorCV_candidate_result, SelectorCV_candidate_unfold.
  destruct (SelectorCV_folds self) as [folds|]; [|discriminate].
  destruct (fold_outcomes self k folds) as [outs|] eqn:Eo; [|discriminate].
  intros _. exists folds. split; [reflexivity|].
  rewrite bind_lift_Ret, log_bind, fold_loop_result, Eo.
  destruct (last _ None); simpl; rewrite app_nil_r; now apply (fold_loop_log_all self k folds outs).
Qed.
End SelectorExtras.

(** ** Further properties of the recognizer *)

Section RecognizerExtras.
Context {B : Backend}.

Lemma set_fresh {V} (d : Dict.t V) k v :
  ~ In k (Dict.keys d) -> Dict.set d k v = d ++ [(k, v)].
Proof.
  induction d as [|[k' v'] d IH]; simpl; intros Hn; [reflexivity|].
  destruct (String.eqb_spec k' k) as [->|]; [exfalso; auto|].
  rewrite IH; [reflexivity | auto].
Qed.

Lemma scores_step_fresh X lengths models acc :
  NoDup (Dict.keys acc ++ Dict.keys models) ->
  fold_left (scores_step X lengths) models acc
  = acc ++ map (fun '(word, model) => (word, recorded model X lengths)) models.
Proof.
  revert acc. induction models as [|[word model] models IH]; intros acc Hnd.
  - simpl. now rewrite app_nil_r.
  - cbn [fold_left map]. rewrite step_set.
    simpl in Hnd. pose proof (NoDup_remove_2 _ _ _ Hnd) as Hfresh.
    rewrite set_fresh by (intros Hin; apply Hfresh, in_or_app; now left).
    rewrite IH.
    + now rewrite <- app_assoc.
    + unfold Dict.keys in *. rewrite map_app. simpl. rewrite <- app_assoc. exact Hnd.
Qed.

(** X11. For a bank with one model per word, the row of an item lists
    the words in the order of the bank, each with its score, or [-inf]
    where the scoring raised. *)
Theorem recognize_scores_in_bank_order models X lengths :
  NoDup (Dict.keys models) ->
  recognize_scores models X lengths
  = map (fun '(word, model) => (word, recorded model X lengths)) models.
Proof.
  intros Hnd. unfold recognize_scores, Dict.items.
  exact (scores_step_fresh X lengths models [] Hnd).
Qed.

Lemma set_head {V} (d : Dict.t V) k0 v0 k v :
  exists v' d', Dict.set ((k0, v0) :: d) k v = (k0, v') :: d'.
Proof. simpl. destruct (String.eqb k0 k); eauto. Qed.

Lemma set_all {V} (d : Dict.t V) k v :
  Forall (fun kv => snd kv = v) d -> Forall (fun kv => snd kv = v) (Dict.set d k v).
Proof.
  induction d as [|[k' v'] d IH]; simpl; intros H.
  - repeat constructor.
  - inversion H as [|? ? Hv Hd]; subst.
    destruct (String.eqb k' k); constructor; auto.
Qed.

Lemma get_all {V} (d : Dict.t V) w v :
  Forall (fun kv => snd kv = v) d -> In w (Dict.keys d) -> Dict.get d w = Some v.
Proof.
  induction d as [|[k' v'] d IH]; simpl; intros H Hin; [easy|].
  inversion H as [|? ? Hv Hd]; subst. simpl.
  destruct (String.eqb_spec k' w) as [->|Hne]; [reflexivity|].
  destruct Hin as [E|Hin]; [congruence | auto].
Qed.

Lemma scores_all_fail X lengths models acc :
  (forall w m, In (w, m) models -> score m X lengths = Exn) ->
  Forall (fun kv => snd kv = neg_infinity) acc ->
  Forall (fun kv => snd kv = neg_infinity) (fold_left (scores_step X lengths) models acc) /\
  forall k0 v0 acc', acc = (k0, v0) :: acc' ->
    exists v' d', fold_left (scores_step X lengths) models acc = (k0, v') :: d'.
Proof.
  revert acc. induction models as [|[word model] models IH]; intros acc Hfail Hacc.
  - simpl. split; [exact Hacc | intros k0 v0 acc' ->; eauto].
  - cbn [fold_left]. rewrite step_set.
    assert (Er : recorded model X lengths = neg_infinity)
      by (unfold recorded; now rewrite (Hfail word model (or_introl eq_refl))).
    rewrite Er.
    destruct (IH (Dict.set acc word neg_infinity)
                (fun w m H => Hfail w m (or_intror H)) (set_all acc word _ Hacc)) as [H1 H2].
    split; [exact H1|]. intros k0 v0 acc' ->.
    destruct (set_head acc' k0 v0 word neg_infinity) as (v' & d' & Es).
    exact (H2 k0 v' d' Es).
Qed.

Lemma py_max_constant {A} (key : A -> float) (x : A) (l : list A) :
  (forall y, In y l -> (key x <? key y)%float = false) -> py_max key (x :: l) = Ret x.
Proof.
  unfold py_max. intros H. f_equal.
  induction l as [|y l IH]; [reflexivity|].
  simpl. rewrite (H y) by now left. apply IH. intros z Hz. apply H. now right.
Qed.

(** X12. When the scoring of an item raises for every model of the bank,
    every entry of its row is [-inf] and the guess is the first word of
    the bank. *)
Theorem recognize_all_fail_guesses_first word model models X lengths :
  (forall w m, In (w, m) ((word, model) :: models) -> score m X lengths = Exn) ->
  Forall (fun kv => snd kv = neg_infinity)
         (recognize_scores ((word, model) :: models) X lengths) /\
  recognize_guess (recognize_scores ((word, model) :: models) X lengths) = Ret word.
Proof.
  intros Hfail. unfold recognize_scores, Dict.items.
  change (fold_left _ ((word, model) :: models) [])
    with (fold_left (scores_step X lengths) models (scores_step X lengths [] (word, model))).
  rewrite step_set.
  assert (Er : recorded model X lengths = neg_infinity)
    by (unfold recorded; now rewrite (Hfail word model (or_introl eq_refl))).
  rewrite Er. cbn [Dict.set].
  destruct (scores_all_fail X lengths models [(word, neg_infinity)]
              (fun w m H => Hfail w m (or_intror H))
              ltac:(repeat constructor)) as [Hall Hhead].
  split; [exact Hall|].
  destruct (Hhead word neg_infinity [] eq_refl) as (v' & d' & E).
  rewrite E in *. unfold recognize_guess. cbn [Dict.keys map fst].
  apply py_max_constant. intros y Hy.
  rewrite (get_all _ word neg_infinity Hall) by (now left).
  rewrite (get_all _ y neg_infinity Hall) by (now right).
  reflexivity.
Qed.

(** X13. In a bank with one model per word, a word whose scoring raises
    on an item is not the guess of that item when the scoring of another
    word returns a score above [-inf]. *)
Theorem recognize_failed_word_not_guessed models X lengths word model other other_model l :
  NoDup (Dict.keys models) ->
  In (word, model) models -> score model X lengths = Exn ->
  In (other, other_model) models -> score other_model X lengths = Ret l ->
  (neg_infinity <? l)%float = true ->
  exists guess,
    recognize_guess (recognize_scores models X lengths) = Ret guess /\ guess <> word.
Proof.
  intros Hnd Hin Hfail Hother Hl Hgt.
  destruct (recognize_guess (recognize_scores models X lengths)) as [guess|] eqn:Eg.
  - exists guess. split; [reflexivity|]. intros ->.
    apply recognize_guess_first_max in Eg as (l1 & l2 & s & _ & Es & Hmax & _).
    rewrite (recognize_scores_get models X lengths word model Hnd Hin) in Es.
    unfold recorded in Es. rewrite Hfail in Es. injection Es as <-.
    pose proof (recognize_scores_get models X lengths other other_model Hnd Hother) as Eo.
    unfold recorded in Eo. rewrite Hl in Eo.
    specialize (Hmax other l Eo). congruence.
  - apply recognize_guess_Exn, recognize_scores_nil in Eg. subst models. destruct Hin.
Qed.

Lemma recognize_loop_acc models all_Xlengths probabilities guesses :
  recognize_loop models all_Xlengths probabilities guesses
  = match recognize_loop models all_Xlengths [] [] with
    | Ret (probs, gs) => Ret (probabilities ++ probs, guesses ++ gs)
    | Exn => Exn
    end.
Proof.
  revert probabilities guesses.
  induction all_Xlengths as [|[i [X lengths]] rest IH]; intros probabilities guesses.
  - simpl. now rewrite !app_nil_r.
  - cbn [recognize_loop].
    destruct (recognize_guess (recognize_scores models X lengths)) as [guess|]; [|reflexivity].
    rewrite (IH (probabilities ++ _) (guesses ++ _)), (IH ([] ++ _) ([] ++ _)).
    destruct (recognize_loop models rest [] []) as [[probs gs]|]; [|reflexivity].
    now rewrite <- !app_assoc.
Qed.

(** X14. Recognizing a test set in two parts gives the same rows and
    guesses as recognizing it whole: the outputs of the parts, one after
    the other.  It raises when one of the parts does. *)
Theorem recognize_app models first_items last_items :
  recognize models (first_items ++ last_items)
  = match recognize models first_items, recognize models last_items with
    | Ret (probs, gs), Ret (probs', gs') => Ret (probs ++ probs', gs ++ gs')
    | _, _ => Exn
    end.
Proof.
  unfold recognize.
  induction first_items as [|[i [X lengths]] rest IH].
  - simpl. now destruct (recognize_loop models last_items [] []) as [[probs gs]|].
  - cbn [app recognize_loop].
    destruct (recognize_guess (recognize_scores models X lengths)) as [guess|] eqn:Eg.
    + rewrite (recognize_loop_acc models (rest ++ last_items)),
        (recognize_loop_acc models rest), IH.
      destruct (recognize_loop models rest [] []) as [[probs gs]|];
        destruct (recognize_loop models last_items [] []) as [[probs' gs']|];
        reflexivity.
    + reflexivity.
Qed.
End RecognizerExtras.

(** ** The toy corpora *)

Import Scenario.

(** BIC on BOOK: two states score [7 ln 5], three states [-2 * -5 + 14 ln 5];
    the two-state model is returned. *)
Example SelectorBIC_book :
  outcome_of (SelectorBIC_candidate book 1) 2
  = Ret ((7 * 0x1.9c041f7ed8d33p+0)%float, mkToyModel 2 5) /\
  outcome_of (SelectorBIC_candidate book 1) 3
  = Ret ((10 + 14 * 0x1.9c041f7ed8d33p+0)%float, mkToyModel 3 5) /\
  result (SelectorBIC_select book) = Ret (Some (mkToyModel 2 5)).
Proof. repeat split; vm_compute; reflexivity. Qed.

(** The rows and guesses of the toy bank: BOOK wins the first item, CHAIR
    the second, and on the unscorable third both entries are [-inf] and
    the first word of the row is guessed. *)
Example recognize_bank :
  recognize bank test_items
  = Ret ([[("BOOK"%string, 0%float); ("CHAIR"%string, (-2)%float)];
          [("BOOK"%string, (-1)%float); ("CHAIR"%string, 0%float)];
          [("BOOK"%string, neg_infinity); ("CHAIR"%string, neg_infinity)]],
         ["BOOK"%string; "CHAIR"%string; "BOOK"%string]).
Proof. vm_compute. reflexivity. Qed.

(** A row with scores -10 and -5 guesses the word of the -5. *)
Example recognize_guess_two_words :
  recognize_guess [("A"%string, (-10)%float); ("B"%string, (-5)%float)] = Ret "B"%string.
Proof. vm_compute. reflexivity. Qed.

(** C2, the claim fails.  For BOOK with two states the fit and the
    self-score succeed and CHAIR is scored, but the score on JOHN raises:
    the candidate has no DIC at all, and [select] returns the three-state
    fallback.  Were JOHN's contribution left out, as it is in the corpus
    without JOHN, the two-state model would win with DIC 2. *)
Lemma SelectorDIC_single_failure_counterexample :
  fit (X book) (lengths book) 2 (random_state book) = Ret (mkToyModel 2 5) /\
  score (mkToyModel 2 5) (X book) (lengths book) = Ret 0%float /\
  competing book = ["CHAIR"%string; "JOHN"%string] /\
  competing_score book (mkToyModel 2 5) "CHAIR" = Ret (-2)%float /\
  competing_score book (mkToyModel 2 5) "JOHN" = Exn /\
  outcome_of (SelectorDIC_candidate book) 2 = Exn /\
  result (SelectorDIC_select book) = Ret (Some (mkToyModel 3 5)) /\
  outcome_of (SelectorDIC_candidate clean_book) 2 = Ret (2%float, mkToyModel 2 5) /\
  result (SelectorDIC_select clean_book) = Ret (Some (mkToyModel 2 5)).
Proof. repeat split; vm_compute; reflexivity. Qed.

(** The dropped candidate on the toy corpus: BOOK with two states, JOHN
    unscorable. *)
Lemma SelectorDIC_competing_failure_witness :
  (fit (X book) (lengths book) 2 (random_state book) = Ret (mkToyModel 2 5) /\
   In "JOHN"%string (competing book) /\
   competing_score book (mkToyModel 2 5) "JOHN" = Exn) /\
  result (SelectorDIC_candidate book 2) = Exn.
Proof.
  assert (H1 : fit (X book) (lengths book) 2 (random_state book) = Ret (mkToyModel 2 5))
    by (vm_compute; reflexivity).
  assert (H2 : In "JOHN"%string (competing book)) by (vm_compute; auto).
  assert (H3 : competing_score book (mkToyModel 2 5) "JOHN" = Exn) by (vm_compute; reflexivity).
  split; [auto|].
  exact (proj1 (SelectorDIC_competing_failure_drops_candidate book 2 _ _ H1 H2 H3)).
Defined.

(** The toy bank has one model per word, and [recognize] returns on it. *)
Lemma recognize_records_failures_witness :
  NoDup (Dict.keys bank) /\
  (recognize bank test_items = Exn <-> bank = [] /\ test_items <> []).
Proof.
  assert (H : NoDup (Dict.keys bank)).
  { vm_compute. constructor; [simpl; intuition discriminate|].
    constructor; [simpl; intuition | constructor]. }
  split; [exact H|].
  exact (proj1 (recognize_records_failures bank test_items H)).
Defined.

(** C4, the claim fails.  CHAIR has a single sequence: [min(3, 1)] is 1,
    [KFold] refuses a single split, and the corpus is cut into no fold at
    all, not into one. *)
Lemma SelectorCV_single_sequence_counterexample :
  length (sequences chair) = 1 /\
  length (lengths chair) = 1 /\
  Z.min 3 (len (lengths chair)) = 1%Z /\
  SelectorCV_folds chair = Exn /\
  SelectorCV_candidate chair 2 = ([], Exn).
Proof. repeat split; vm_compute; reflexivity. Qed.

(** BOOK has two sequences and is cut into two folds. *)
Lemma SelectorCV_folds_count_witness :
  length (lengths book) = length (sequences book) /\
  2 <= length (sequences book) /\
  exists folds,
    SelectorCV_folds book = Ret folds /\
    length folds = Nat.min 3 (length (sequences book)).
Proof.
  assert (H1 : length (lengths book) = length (sequences book)) by reflexivity.
  assert (H2 : 2 <= length (sequences book)) by (vm_compute; lia).
  split; [exact H1|]. split; [exact H2|].
  destruct (proj1 (SelectorCV_folds_count book H1) H2) as (folds & E & L & _).
  exists folds. split; [exact E | exact L].
Defined.

(** BOOK with three states: the first fold trains on two rows, its fit
    raises, and the candidate is disqualified.  With two states both folds
    succeed and the candidate has the mean of their scores. *)
Lemma SelectorCV_fold_failure_witness :
  (SelectorCV_folds book = Ret [([1], [0]); ([0], [1])] /\
   fold_outcome book 3 ([1], [0]) = Exn /\
   Forall2 (fun fold o => fold_outcome book 2 fold = Ret o)
     [([1], [0]); ([0], [1])] [(mkToyModel 2 2, 0%float); (mkToyModel 2 3, 0%float)]) /\
  outcome_of (SelectorCV_candidate book) 3 = Exn /\
  exists m,
    outcome_of (SelectorCV_candidate book) 2
    = Ret (np_average (map snd [(mkToyModel 2 2, 0%float); (mkToyModel 2 3, 0%float)]), m).
Proof.
  assert (H1 : SelectorCV_folds book = Ret [([1], [0]); ([0], [1])]) by (vm_compute; reflexivity).
  assert (H2 : fold_outcome book 3 ([1], [0]) = Exn) by (vm_compute; reflexivity).
  assert (H3 : Forall2 (fun fold o => fold_outcome book 2 fold = Ret o)
                 [([1], [0]); ([0], [1])]
                 [(mkToyModel 2 2, 0%float); (mkToyModel 2 3, 0%float)])
    by (repeat constructor; vm_compute; reflexivity).
  split; [auto|]. split.
  - exact (proj1 (SelectorCV_fold_failure_disqualifies book 3) _ _ H1 (or_introl eq_refl) H2).
  - exact (proj1 (proj2 (proj2 (proj2 (SelectorCV_fold_failure_disqualifies book 2))))
             _ _ H1 H3).
Defined.

(** C6, the claim fails.  On an empty bank [recognize] returns no list:
    the guess of the first item raises. *)
Lemma recognize_empty_bank_counterexample :
  recognize (B := toy) [] test_items = Exn /\ length test_items = 3.
Proof. split; vm_compute; reflexivity. Qed.

(** One row and one guess for each of the three test items. *)
Lemma recognize_rows_and_guesses_witness :
  bank <> [] /\
  exists probabilities guesses,
    recognize bank test_items = Ret (probabilities, guesses) /\
    length probabilities = length test_items /\
    length guesses = length test_items.
Proof.
  assert (H : bank <> []) by discriminate.
  split; [exact H|].
  destruct (recognize_rows_and_guesses bank test_items H) as (ps & gs & E & L1 & L2 & _).
  exists ps, gs. auto.
Defined.

(** C8, the claim fails.  CHAIR has a single sequence, so no fold exists:
    of the topologies 2 and 3, [SelectorCV.select] attempts no fit but the
    fallback's, at the constant topology 3.  No fit with two states is
    attempted. *)
Lemma SelectorCV_no_fit_counterexample :
  topologies chair = [2%Z; 3%Z] /\
  n_constant chair = 3%Z /\
  map fc_n_components (log (SelectorCV_select chair)) = [3%Z] /\
  log (SelectorCV_select chair) = [full_fit chair (n_constant chair)].
Proof. repeat split; vm_compute; reflexivity. Qed.

(** BOOK can be cut into folds, and the evaluation of its two-state
    candidate starts with a fit on the training sequences of the first
    fold. *)
Lemma selectors_attempts_witness :
  splittable book /\
  exists train test folds train_n train_len later,
    SelectorCV_folds book = Ret ((train, test) :: folds) /\
    combine_sequences train (sequences book) = Ret (train_n, train_len) /\
    log (SelectorCV_candidate book 2)
    = mkFitCall train_n train_len 2 (random_state book) :: later.
Proof.
  assert (H : splittable book) by (split; vm_compute; discriminate).
  split; [exact H|].
  exact (proj1 (proj2 (proj2 (proj2 (selectors_attempts_and_fallback book)))) H 2%Z).
Defined.

(** C9, the claim fails.  With every word missing from the bank (the
    selection for CHAIR returns no model), [recognize] raises on the first
    test item. *)
Lemma recognize_no_model_counterexample :
  result (SelectorCV_select chair) = Ret None /\
  recognize (B := toy) [] [(0%Z, ([[3%float]], [1%Z]))] = Exn.
Proof. split; vm_compute; reflexivity. Qed.

(** JOHN is not in the toy bank and is never guessed. *)
Lemma recognize_tolerates_missing_words_witness :
  bank <> [] /\
  exists probabilities guesses,
    recognize bank test_items = Ret (probabilities, guesses) /\
    ~ In "JOHN"%string guesses.
Proof.
  assert (H : bank <> []) by discriminate.
  split; [exact H|].
  destruct (recognize_tolerates_missing_words bank test_items H) as (ps & gs & E & Hg).
  exists ps, gs. split; [exact E|]. apply Hg.
  vm_compute. intuition discriminate.
Defined.


(** ** Further runs on the toy corpora *)

(** BOOK is in both dictionaries; a word in neither makes the constructor raise. *)
Example ModelSelector_init_book :
  ModelSelector_init all_word_sequences all_word_Xlengths "BOOK" 3 2 3 14 false = Ret book /\
  ModelSelector_init all_word_sequences all_word_Xlengths "FISH" 3 2 3 14 false = Exn.
Proof. split; vm_compute; reflexivity. Qed.

(** The two-state model BIC returns for BOOK is a fit of BOOK's five rows. *)
Lemma whole_corpus_model_witness :
  result (SelectorBIC_select book) = Ret (Some (mkToyModel 2 5)) /\
  exists k,
    (k = n_constant book \/ (min_n_components book <= k <= max_n_components book)%Z) /\
    fit (X book) (lengths book) k (random_state book) = Ret (mkToyModel 2 5).
Proof.
  assert (H : result (SelectorBIC_select book) = Ret (Some (mkToyModel 2 5)))
    by (vm_compute; reflexivity).
  split; [exact H|].
  exact (whole_corpus_model book (mkToyModel 2 5) (or_introl H)).
Defined.

(** CV returns no model for CHAIR: its two rows cannot carry the three
    states of the fallback. *)
Lemma select_None_witness :
  result (SelectorCV_select chair) = Ret None /\
  fit (X chair) (lengths chair) (n_constant chair) (random_state chair) = Exn.
Proof.
  assert (H : result (SelectorCV_select chair) = Ret None) by (vm_compute; reflexivity).
  split; [exact H|].
  exact (select_None_only_if_fallback_fails chair (or_intror (or_intror H))).
Defined.

(** CHAIR has one sequence: CV is the constant selector on it. *)
Lemma SelectorCV_unsplittable_witness :
  ~ splittable chair /\ SelectorCV_select chair = SelectorConstant_select chair.
Proof.
  assert (H : ~ splittable chair) by (intros [H _]; vm_compute in H; now apply H).
  split; [exact H|].
  exact (SelectorCV_unsplittable_is_constant chair H).
Defined.

(** BOOK over the range from 5 to 4. *)
Lemma empty_range_witness :
  (max_n_components book_empty_range < min_n_components book_empty_range)%Z /\
  SelectorDIC_select book_empty_range = SelectorConstant_select book_empty_range.
Proof.
  assert (H : (max_n_components book_empty_range < min_n_components book_empty_range)%Z)
    by reflexivity.
  split; [exact H|].
  exact (proj1 (empty_range_is_constant book_empty_range H)).
Defined.

(** BOOK alone in its corpus: DIC returns the three-state fallback. *)
Lemma SelectorDIC_single_word_witness :
  (competing solo_book = [] /\ np_average [] = nan) /\
  (forall k d m, outcome_of (SelectorDIC_candidate solo_book) k = Ret (d, m) -> d = nan) /\
  outcome_of (SelectorDIC_candidate solo_book) 2 = Ret (nan, mkToyModel 2 5) /\
  result (SelectorDIC_select solo_book) = Ret (Some (mkToyModel 3 5)).
Proof.
  assert (H1 : competing solo_book = []) by reflexivity.
  assert (H2 : np_average [] = nan) by reflexivity.
  split; [auto|].
  destruct (SelectorDIC_single_word_returns_fallback solo_book H1 H2) as [Hnan Hsel].
  split; [exact Hnan|]. split; [vm_compute; reflexivity | exact Hsel].
Defined.

(** BOOK with two states: two folds, two fits, on two rows and on three. *)
Lemma SelectorCV_one_fit_per_fold_witness :
  outcome_of (SelectorCV_candidate book) 2 = Ret (0%float, mkToyModel 2 3) /\
  exists folds,
    SelectorCV_folds book = Ret folds /\
    length folds = length (log (SelectorCV_candidate book 2)).
Proof.
  assert (H : outcome_of (SelectorCV_candidate book) 2 = Ret (0%float, mkToyModel 2 3))
    by (vm_compute; reflexivity).
  split; [exact H|].
  destruct (SelectorCV_candidate_one_fit_per_fold book 2 _ _ H) as (folds & E & Hall).
  exists folds. split; [exact E | exact (Forall2_length Hall)].
Defined.

(** The row of the first test item, in the order of the toy bank. *)
Lemma recognize_scores_in_bank_order_witness :
  NoDup (Dict.keys bank) /\
  recognize_scores bank [[2%float]; [2%float]] [2%Z]
  = [("BOOK"%string, recorded (mkToyModel 2 5) [[2%float]; [2%float]] [2%Z]);
     ("CHAIR"%string, recorded (mkToyModel 3 2) [[2%float]; [2%float]] [2%Z])].
Proof.
  assert (H : NoDup (Dict.keys bank)).
  { vm_compute. constructor; [simpl; intuition discriminate|].
    constructor; [simpl; intuition | constructor]. }
  split; [exact H|].
  exact (recognize_scores_in_bank_order bank _ _ H).
Defined.

(** An item holding a NaN: every scoring raises and BOOK, the first word of
    the bank, is guessed. *)
Lemma recognize_all_fail_witness :
  (forall w m, In (w, m) bank -> score m [[nan]] [1%Z] = Exn) /\
  recognize_guess (recognize_scores bank [[nan]] [1%Z]) = Ret "BOOK"%string.
Proof.
  assert (H : forall w m, In (w, m) bank -> score m [[nan]] [1%Z] = Exn).
  { intros w m [E|[E|[]]]; injection E as _ <-; reflexivity. }
  split; [exact H|].
  exact (proj2 (recognize_all_fail_guesses_first "BOOK" (mkToyModel 2 5)
                  [("CHAIR"%string, mkToyModel 3 2)] [[nan]] [1%Z] H)).
Defined.

(** A bank with [None] for BOOK: on an item CHAIR scores, BOOK is not
    guessed. *)
Lemma recognize_failed_word_witness :
  NoDup (Dict.keys bank_with_none) /\
  exists guess,
    recognize_guess (recognize_scores (B := with_none) bank_with_none [[3%float]] [1%Z])
    = Ret guess /\
    guess <> "BOOK"%string.
Proof.
  assert (H : NoDup (Dict.keys bank_with_none)).
  { vm_compute. constructor; [simpl; intuition discriminate|].
    constructor; [simpl; intuition | constructor]. }
  split; [exact H|].
  apply (recognize_failed_word_not_guessed (B := with_none) bank_with_none [[3%float]] [1%Z]
           "BOOK" None "CHAIR" (Some (mkToyModel 3 2)) 0%float H).
  - now left.
  - reflexivity.
  - right. now left.
  - vm_compute. reflexivity.
  - reflexivity.
Defined.

